(** * filfox-verifier: the import-closure resolver and the verification submitter

    A shallow embedding of [FilfoxVerifier] (services/filfox-verifier.ts) and
    the properties of its specification.

    Conventions of the embedding.
    - A JavaScript string is a [string]: one character per code unit (the
      embedding covers the code units below 256).  [replace] is the method of
      [String.prototype] with a string pattern: the first occurrence, and the
      dollar patterns of the replacement text.
    - A [Record<string, SourceFile>] is a plain object: an association list
      holds its own properties in the order [Object.keys] lists them (array
      indices first, in ascending order, then the other keys in the order of
      their creation), and its prototype is [Object.prototype].  A lookup
      [o[k]] reads the own property [k] and, when there is none, the member
      that [Object.prototype] has under that name ([constructor],
      [toString], [__proto__] and so on).  An assignment [o[k] = v] creates
      or updates an own property, except that [o["__proto__"] = v] on an
      object without such an own property runs the inherited setter, which
      replaces the prototype and creates no property.  [Object.keys],
      [Object.entries], the spread syntax and [JSON.stringify] see own
      properties only.
    - [Array.prototype.sort] is stable.
    - An exception is a value of [completion]; [console.warn] and
      [console.error] append to an explicit console log; the network is a
      function from the address and the body of a request to its outcome.
    - [path] is Node's POSIX [path] module. *)

From Stdlib Require Import String Ascii List Bool Arith Lia ZArith DecimalString Sorted.
Import ListNotations.
Local Open Scope string_scope.
Local Open Scope list_scope.

(** ** JavaScript strings *)

Module JsString.

Fixpoint startsWith (s p : string) {struct p} : bool :=
  match p with
  | EmptyString => true
  | String c p' =>
      match s with
      | EmptyString => false
      | String d s' => Ascii.eqb d c && startsWith s' p'
      end
  end.

Fixpoint take (n : nat) (s : string) : string :=
  match n, s with
  | S n', String c s' => String c (take n' s')
  | _, _ => EmptyString
  end.

Fixpoint drop (n : nat) (s : string) : string :=
  match n, s with
  | S n', String _ s' => drop n' s'
  | _, _ => s
  end.

(** [s.indexOf(p)]: the least position at which [p] occurs in [s]. *)
Fixpoint indexOf (s p : string) : option nat :=
  if startsWith s p then Some 0
  else match s with
       | EmptyString => None
       | String _ s' => option_map S (indexOf s' p)
       end.

Definition includes (s p : string) : bool :=
  match indexOf s p with Some _ => true | None => false end.

(** The replacement text of [String.prototype.replace] for a string pattern
    (GetSubstitution with no capture groups): [$$] stands for a dollar sign,
    [$&] for the matched text, [$`] for the text before the match and [$']
    for the text after it; every other character stands for itself. *)
Fixpoint getSubstitution (matched before after repl : string) : string :=
  match repl with
  | EmptyString => EmptyString
  | String "$" (String "$" r) =>
      String "$" (getSubstitution matched before after r)
  | String "$" (String "&" r) =>
      matched ++ getSubstitution matched before after r
  | String "$" (String "`" r) =>
      before ++ getSubstitution matched before after r
  | String "$" (String "'" r) =>
      after ++ getSubstitution matched before after r
  | String c r => String c (getSubstitution matched before after r)
  end.

(** [s.replace(pat, repl)] with a string pattern: the first occurrence only. *)
Definition replace (s pat repl : string) : string :=
  match indexOf s pat with
  | None => s
  | Some i =>
      let before := take i s in
      let after := drop (i + String.length pat) s in
      before ++ getSubstitution pat before after repl ++ after
  end.

(** White space and line terminators, the characters [trim] strips and
    [\s] matches: TAB, LF, VT, FF, CR, SP and NBSP. *)
Definition isWhiteSpace (c : ascii) : bool :=
  let n := nat_of_ascii c in
  ((9 <=? n)%nat && (n <=? 13)%nat) || (n =? 32)%nat || (n =? 160)%nat.

Fixpoint trimStart (s : string) : string :=
  match s with
  | String c s' => if isWhiteSpace c then trimStart s' else s
  | EmptyString => EmptyString
  end.

Fixpoint trimEnd (s : string) : string :=
  match s with
  | EmptyString => EmptyString
  | String c s' =>
      match trimEnd s' with
      | EmptyString => if isWhiteSpace c then EmptyString else String c EmptyString
      | t => String c t
      end
  end.

Definition trim (s : string) : string := trimEnd (trimStart s).

(** [s.split(sep)] for a separator of one character: the pieces between
    the separators, at least one piece. *)
Fixpoint split (sep : ascii) (s : string) : list string :=
  match s with
  | EmptyString => [EmptyString]
  | String c s' =>
      if Ascii.eqb c sep then EmptyString :: split sep s'
      else match split sep s' with
           | p :: ps => String c p :: ps
           | [] => [String c EmptyString]
           end
  end.

Definition mem (x : string) (l : list string) : bool :=
  existsb (String.eqb x) l.

End JsString.

(** ** Errors *)

(** A thrown JavaScript error: the name of its class and its message. *)
Record js_error := mkError { err_name : string; err_message : string }.

Inductive completion (A : Type) :=
| Return (a : A)
| Throw (e : js_error).
Arguments Return {A} a.
Arguments Throw {A} e.

Definition bind {A B} (c : completion A) (k : A -> completion B) : completion B :=
  match c with
  | Return a => k a
  | Throw e => Throw e
  end.

Notation "x <- c ;; k" := (bind c (fun x => k))
  (at level 61, c at next level, right associativity).

Definition TypeError (msg : string) : js_error := mkError "TypeError" msg.
Definition Error (msg : string) : js_error := mkError "Error" msg.


(** ** Objects used as maps *)

Module JsObject.

Section Obj.
Context {V : Type}.

Definition t := list (string * V).

Definition empty : t := [].

(** The own property [k], if any. *)
Fixpoint get (o : t) (k : string) : option V :=
  match o with
  | [] => None
  | (k', v) :: o' => if String.eqb k' k then Some v else get o' k
  end.

Definition has (o : t) (k : string) : bool :=
  match get o k with Some _ => true | None => false end.

Definition keys (o : t) : list string := map fst o.
Definition entries (o : t) : list (string * V) := o.

Definition isDigit (c : ascii) : bool :=
  let n := nat_of_ascii c in ((48 <=? n)%nat && (n <=? 57)%nat).

Fixpoint digitsValue (acc : N) (s : string) : option N :=
  match s with
  | EmptyString => Some acc
  | String c s' =>
      if isDigit c
      then digitsValue (10 * acc + N.of_nat (nat_of_ascii c - 48))%N s'
      else None
  end.

(** A property key that is an array index: the canonical decimal form of
    an integer below 2^32 - 1.  Such keys are listed first, in ascending
    order; the other keys follow in the order of their creation. *)
Definition arrayIndex (k : string) : option N :=
  match k with
  | EmptyString => None
  | String "0" EmptyString => Some 0%N
  | String "0" _ => None
  | _ =>
      match digitsValue 0%N k with
      | Some n => if (n <? 4294967295)%N then Some n else None
      | None => None
      end
  end.

Fixpoint overwrite (k : string) (v : V) (o : t) : t :=
  match o with
  | [] => []
  | (k', v') :: o' =>
      if String.eqb k' k then (k', v) :: o' else (k', v') :: overwrite k v o'
  end.

Fixpoint insertIndex (n : N) (k : string) (v : V) (o : t) : t :=
  match o with
  | [] => [(k, v)]
  | (k', v') :: o' =>
      match arrayIndex k' with
      | Some m =>
          if (n <? m)%N then (k, v) :: o
          else (k', v') :: insertIndex n k v o'
      | None => (k, v) :: o
      end
  end.

(** The own property [k] is given the value [v] (CreateDataProperty): an
    existing property keeps its place, a new one is created. *)
Definition set (k : string) (v : V) (o : t) : t :=
  if has o k then overwrite k v o
  else match arrayIndex k with
       | Some n => insertIndex n k v o
       | None => o ++ [(k, v)]
       end.

(** The names of the members of [Object.prototype], which every plain
    object inherits.  Each of them holds a function, except [__proto__],
    an accessor whose getter returns the prototype of the object; all of
    these values are truthy. *)
Definition objectPrototypeNames : list string :=
  [ "constructor"; "__defineGetter__"; "__defineSetter__"; "hasOwnProperty";
    "__lookupGetter__"; "__lookupSetter__"; "isPrototypeOf";
    "propertyIsEnumerable"; "toString"; "valueOf"; "__proto__";
    "toLocaleString" ].

Definition isObjectPrototypeName (k : string) : bool :=
  existsb (String.eqb k) objectPrototypeNames.

(** What [o[k]] evaluates to on a plain object, [undefined] apart: the
    value of an own property, or the member of [Object.prototype] of that
    name. *)
Inductive member :=
| own (v : V)
| inherited (name : string).

(** [o[k]] on a plain object whose prototype is [Object.prototype]; [None]
    for [undefined]. *)
Definition read (o : t) (k : string) : option member :=
  match get o k with
  | Some v => Some (own v)
  | None => if isObjectPrototypeName k then Some (inherited k) else None
  end.

(** [o[k] = v] on a plain object, [v] being a plain object too.  With the key
    [__proto__] and no own property of that name the assignment runs the
    setter inherited from [Object.prototype]: the prototype of [o] becomes
    [v] and the own properties stay as they are.  The members a prototype
    holds otherwise are writable data properties, so that every other
    assignment creates or updates an own property. *)
Definition assign (k : string) (v : V) (o : t) : t :=
  if String.eqb k "__proto__" && negb (has o k) then o else set k v o.

(** [{...a, ...b}]: the own properties of [a], then those of [b], copied
    one by one into a fresh object. *)
Definition spread2 (a b : t) : t :=
  fold_left (fun o kv => set (fst kv) (snd kv) o) (entries a ++ entries b) empty.

End Obj.
Arguments t : clear implicits.
Arguments member : clear implicits.

End JsObject.

(** ** Node's [path] module (POSIX) *)

Module Path.

Definition slash : ascii := "/"%char.
Definition isSlash (c : ascii) : bool := Ascii.eqb c slash.

Fixpoint dropWhile (f : ascii -> bool) (l : list ascii) : list ascii :=
  match l with
  | c :: l' => if f c then dropWhile f l' else l
  | [] => []
  end.

Fixpoint takeWhile (f : ascii -> bool) (l : list ascii) : list ascii :=
  match l with
  | c :: l' => if f c then c :: takeWhile f l' else []
  | [] => []
  end.

(** [path.basename(p)]: trailing separators are ignored, the result is
    the text after the last remaining separator. *)
Definition basename (p : string) : string :=
  let r := dropWhile isSlash (rev (list_ascii_of_string p)) in
  string_of_list_ascii (rev (takeWhile (fun c => negb (isSlash c)) r)).

(** [path.dirname(p)].  The scan runs from the last character down to the
    second one: trailing separators are skipped, then the last segment, and
    the separator found there ends the result. *)
Definition dirname (p : string) : string :=
  match list_ascii_of_string p with
  | [] => "."
  | c0 :: cs =>
      let hasRoot := isSlash c0 in
      let r := dropWhile (fun c => negb (isSlash c)) (dropWhile isSlash (rev cs)) in
      match r with
      | [] => if hasRoot then "/" else "."
      | _ :: before =>
          (* the separator sits at index [1 + length before] *)
          if hasRoot && (List.length before =? 0)%nat then "//"
          else string_of_list_ascii (c0 :: rev before)
      end
  end.

Fixpoint joinSegments (l : list string) : string :=
  match l with
  | [] => ""
  | [s] => s
  | s :: l' => s ++ "/" ++ joinSegments l'
  end.

(** One step of [normalizeString]: [acc] holds the segments kept so far,
    the last one first. *)
Definition normalizeStep (allowAboveRoot : bool) (acc : list string) (seg : string)
  : list string :=
  if String.eqb seg "" || String.eqb seg "." then acc
  else if String.eqb seg ".." then
    match acc with
    | last :: acc' =>
        if String.eqb last ".."
        then (if allowAboveRoot then ".." :: acc else acc)
        else acc'
    | [] => if allowAboveRoot then [".."] else []
    end
  else seg :: acc.

Definition normalizeString (p : string) (allowAboveRoot : bool) : string :=
  joinSegments
    (rev (fold_left (normalizeStep allowAboveRoot) (JsString.split slash p) [])).

Definition endsWithSlash (p : string) : bool :=
  match rev (list_ascii_of_string p) with
  | c :: _ => isSlash c
  | [] => false
  end.

(** [path.normalize(p)]. *)
Definition normalize (p : string) : string :=
  match p with
  | EmptyString => "."
  | String c0 _ =>
      let isAbsolute := isSlash c0 in
      let trailingSeparator := endsWithSlash p in
      let q := normalizeString p (negb isAbsolute) in
      match q with
      | EmptyString =>
          if isAbsolute then "/" else if trailingSeparator then "./" else "."
      | _ =>
          let q' := if trailingSeparator then (q ++ "/")%string else q in
          if isAbsolute then "/" ++ q' else q'
      end
  end.

(** [path.join(a, b)]: the non-empty arguments joined by a separator,
    then normalized. *)
Definition join (a b : string) : string :=
  match a, b with
  | EmptyString, EmptyString => "."
  | EmptyString, _ => normalize b
  | _, EmptyString => normalize a
  | _, _ => normalize (a ++ "/" ++ b)
  end.

End Path.

(** ** The regular expressions of [extractImports] *)

Module Regex.

(** The character classes the four patterns use. *)
Inductive charClass :=
| Space            (* \s *)
| Word             (* \w *)
| Quote            (* a double or a single quote *)
| NotQuote         (* any character but the two quotes *)
| NotCloseBrace.   (* any character but a closing brace *)

Definition isWord (c : ascii) : bool :=
  let n := nat_of_ascii c in
  ((48 <=? n)%nat && (n <=? 57)%nat) || ((65 <=? n)%nat && (n <=? 90)%nat)
  || ((97 <=? n)%nat && (n <=? 122)%nat) || (n =? 95)%nat.

Definition doubleQuote : ascii := ascii_of_nat 34.
Definition singleQuote : ascii := ascii_of_nat 39.

Definition isQuote (c : ascii) : bool :=
  Ascii.eqb c doubleQuote || Ascii.eqb c singleQuote.

Definition classMatches (k : charClass) (c : ascii) : bool :=
  match k with
  | Space => JsString.isWhiteSpace c
  | Word => isWord c
  | Quote => isQuote c
  | NotQuote => negb (isQuote c)
  | NotCloseBrace => negb (Ascii.eqb c "}"%char)
  end.

(** The pieces of a pattern, matched one after the other. *)
Inductive node :=
| Chars (s : string)            (* literal text *)
| Class (k : charClass)         (* one character of the class *)
| Star (k : charClass)          (* k*, greedy *)
| Plus (k : charClass)          (* k+, greedy *)
| CapturePlus (k : charClass).  (* (k+), the capture group *)

Definition regex := list node.

(** The length of the longest run of class characters at the head. *)
Fixpoint run (k : charClass) (s : string) : nat :=
  match s with
  | String c s' => if classMatches k c then S (run k s') else 0
  | EmptyString => 0
  end.

(** Backtracking over a greedy quantifier: the longest repetition first,
    then shorter ones down to none. *)
Fixpoint tryCounts {R} (n : nat) (f : nat -> option R) : option R :=
  match f n with
  | Some r => Some r
  | None => match n with
            | 0 => None
            | S n' => tryCounts n' f
            end
  end.

(** A match of the pattern at the head of [s]: the text of the capture
    group (if the group took part) and the text left after the match. *)
Fixpoint matchHere (r : regex) (s : string) : option (option string * string) :=
  match r with
  | [] => Some (None, s)
  | Chars l :: r' =>
      if JsString.startsWith s l
      then matchHere r' (JsString.drop (String.length l) s)
      else None
  | Class k :: r' =>
      match s with
      | String c s' => if classMatches k c then matchHere r' s' else None
      | EmptyString => None
      end
  | Star k :: r' =>
      tryCounts (run k s) (fun n => matchHere r' (JsString.drop n s))
  | Plus k :: r' =>
      tryCounts (run k s)
        (fun n => if (n =? 0)%nat then None else matchHere r' (JsString.drop n s))
  | CapturePlus k :: r' =>
      tryCounts (run k s)
        (fun n =>
           if (n =? 0)%nat then None
           else match matchHere r' (JsString.drop n s) with
                | Some (_, rest) => Some (Some (JsString.take n s), rest)
                | None => None
                end)
  end.

(** A match object: [index] and the text of group 1. *)
Record matchResult := mkMatch { index : nat; group1 : option string }.

(** The successive results of [regex.exec(content)] on a global pattern,
    from [lastIndex = 0] until it answers [null].  [s] is the text from
    position [pos] on and [skip] counts the characters up to [lastIndex].
    Every pattern below begins with the text [import], so no match is
    empty. *)
Fixpoint execLoop (r : regex) (s : string) (pos skip : nat) : list matchResult :=
  match s with
  | EmptyString => []
  | String _ s' =>
      match skip with
      | S k => execLoop r s' (S pos) k
      | 0 =>
          match matchHere r s with
          | Some (cap, rest) =>
              mkMatch pos cap
                :: execLoop r s' (S pos) (String.length s - String.length rest - 1)
          | None => execLoop r s' (S pos) 0
          end
      end
  end.

Definition execAll (r : regex) (content : string) : list matchResult :=
  execLoop r content 0 0.

End Regex.

(** ** Data model *)

Record SourceFile := mkSourceFile { content : string }.

Record Remapping := mkRemapping { original : string; resolved : string }.

(** What the traversal reads from the available files and stores in its
    result: a source file, or a member inherited from [Object.prototype]. *)
Definition stored : Type := JsObject.member SourceFile.

Record ImportResolver := mkImportResolver {
  sourceFiles : JsObject.t SourceFile;
  remappedSourceFiles : JsObject.t SourceFile;
  remappings : list Remapping
}.

(** The output on the console.  [warn_unresolved i f] is the warning
    of [resolveImportPath], whose text names the import [i] and the file [f]
    that refers to it; [error_verification_failed e] is the report of the
    [catch] clause of [verify]. *)
Inductive console_event :=
| warn_unresolved (importPath currentFile : string)
| error_verification_failed (e : js_error).

(** A value of type [any]: what [metadata] and the answer of the service
    may hold. *)
#[local] Set Warnings "-register-all".
Inductive value :=
| VUndefined
| VNull
| VBool (b : bool)
| VNumber (z : Z)
| VString (s : string)
| VArray (l : list value)
| VObject (l : list (string * value)).

(** [v.k] on a value of type [any], for the names [k] the code reads
    ([settings], [remappings], [errorCode], [contractName], [errorMsg]),
    none of which a prototype provides. *)
Definition getProp (v : value) (k : string) : completion value :=
  match v with
  | VUndefined =>
      Throw (TypeError ("Cannot read properties of undefined (reading '" ++ k ++ "')"))
  | VNull =>
      Throw (TypeError ("Cannot read properties of null (reading '" ++ k ++ "')"))
  | VObject l =>
      match JsObject.get l k with
      | Some x => Return x
      | None => Return VUndefined
      end
  | _ => Return VUndefined
  end.

Record VerificationRequest := mkVerificationRequest {
  req_address : string;
  req_language : string;
  req_compiler : string;
  req_optimize : bool;
  req_optimizeRuns : Z;
  req_sourceFiles : JsObject.t SourceFile;
  req_license : string;
  req_evmVersion : string;
  req_viaIR : bool;
  req_libraries : string;
  req_metadata : value;
  req_optimizerDetails : string
}.

(** The body of the request sent to the service. *)
Record RequestBody := mkRequestBody {
  body_address : string;
  body_language : string;
  body_compiler : string;
  body_optimize : bool;
  body_optimizeRuns : Z;
  body_sourceFiles : JsObject.t stored;
  body_license : string;
  body_evmVersion : string;
  body_viaIR : bool;
  body_libraries : string;
  body_metadata : string;
  body_optimizerDetails : string
}.

(** What [fetch] followed by [response.json()] can do. *)
Inductive fetch_outcome :=
| FetchRejected (e : js_error)
| JsonRejected (e : js_error)
| JsonParsed (result : value).

(** ** FilfoxVerifier *)

Module FilfoxVerifier.

Definition FILFOX_NETWORKS : list (Z * string) :=
  [ (314%Z, "https://filfox.info/api/v1/tools/verifyContract");
    (314159%Z, "https://calibration.filfox.info/api/v1/tools/verifyContract") ].

Fixpoint lookupNetwork (table : list (Z * string)) (chainId : Z) : option string :=
  match table with
  | [] => None
  | (id, url) :: table' => if Z.eqb id chainId then Some url else lookupNetwork table' chainId
  end.

Record t := mkVerifier { baseUrl : string; chainId : Z }.

(** *** normalizeCompilerVersion *)

Definition normalizeCompilerVersion (compiler : string) : string :=
  if JsString.includes compiler "v" then compiler else "v" ++ compiler.

(** *** constructor *)

(** The text of a number inside a template literal, for an integer of
    magnitude below 10^21 (from there on a number is printed with an
    exponent). *)
Definition showNumber (z : Z) : string :=
  DecimalString.NilZero.string_of_int (Z.to_int z).

Definition constructor (chainId : Z) : completion t :=
  match lookupNetwork FILFOX_NETWORKS chainId with
  | Some url =>
      if String.eqb url "" then Throw (Error ("Unsupported chain ID: " ++ showNumber chainId))
      else Return (mkVerifier url chainId)
  | None => Throw (Error ("Unsupported chain ID: " ++ showNumber chainId))
  end.

(** *** parseRemappings *)

(** The callback of [map]: [mapping.split("=")], the first two pieces
    destructured, both trimmed.  With a single piece [resolved] is
    [undefined] and [resolved.trim()] throws. *)
Definition parseMapping (mapping : string) : completion Remapping :=
  match JsString.split "="%char mapping with
  | original :: resolved :: _ =>
      Return (mkRemapping (JsString.trim original) (JsString.trim resolved))
  | _ => Throw (TypeError "Cannot read properties of undefined (reading 'trim')")
  end.

Fixpoint mapM {A B} (f : A -> completion B) (l : list A) : completion (list B) :=
  match l with
  | [] => Return []
  | x :: l' => y <- f x ;; ys <- mapM f l' ;; Return (y :: ys)
  end.

Definition parseRemappings (remappingsArray : list string)
  : completion (list Remapping) :=
  mapM parseMapping remappingsArray.

(** [parseRemappings] applied to a value of type [any], as [verify] does
    with [request.metadata.settings.remappings]. *)
Definition parseRemappingsAny (remappingsArray : value)
  : completion (list Remapping) :=
  match remappingsArray with
  | VArray l =>
      mapM (fun mapping =>
              match mapping with
              | VString s => parseMapping s
              | VUndefined =>
                  Throw (TypeError "Cannot read properties of undefined (reading 'split')")
              | VNull =>
                  Throw (TypeError "Cannot read properties of null (reading 'split')")
              | _ => Throw (TypeError "mapping.split is not a function")
              end) l
  | VUndefined =>
      Throw (TypeError "Cannot read properties of undefined (reading 'map')")
  | VNull =>
      Throw (TypeError "Cannot read properties of null (reading 'map')")
  | _ => Throw (TypeError "remappingsArray.map is not a function")
  end.

(** *** createRemappedSourceFiles *)

Definition createRemappedSourceFiles
  (sourceFiles : JsObject.t SourceFile) (remappings : list Remapping)
  : JsObject.t SourceFile :=
  fold_left
    (fun remappedFiles entry =>
       let filePath := fst entry in
       let fileContent := snd entry in
       match find (fun mapping => JsString.startsWith filePath (resolved mapping))
               remappings with
       | Some remapping =>
           let remappedPath :=
             JsString.replace filePath (resolved remapping) (original remapping) in
           JsObject.assign remappedPath fileContent remappedFiles
       | None => remappedFiles
       end)
    (JsObject.entries sourceFiles) JsObject.empty.

(** *** extractImports *)

Import Regex.

Definition importRegexes : list regex :=
  [ (* import "path" *)
    [Chars "import"; Plus Space; Class Quote; CapturePlus NotQuote; Class Quote];
    (* import {Symbol} from "path" *)
    [Chars "import"; Star Space; Chars "{"; Star NotCloseBrace; Chars "}";
     Star Space; Chars "from"; Plus Space; Class Quote; CapturePlus NotQuote;
     Class Quote];
    (* import * as Symbol from "path" *)
    [Chars "import"; Plus Space; Chars "*"; Plus Space; Chars "as"; Plus Space;
     Plus Word; Plus Space; Chars "from"; Plus Space; Class Quote;
     CapturePlus NotQuote; Class Quote];
    (* import Symbol from "path" *)
    [Chars "import"; Plus Space; Plus Word; Plus Space; Chars "from"; Plus Space;
     Class Quote; CapturePlus NotQuote; Class Quote] ].

(** The body of the [while] loop: a non-empty path not yet in [imports] is
    pushed. *)
Definition pushImport (imports : list string) (m : matchResult) : list string :=
  match group1 m with
  | Some importPath =>
      if negb (String.eqb importPath "") && negb (JsString.mem importPath imports)
      then imports ++ [importPath]
      else imports
  | None => imports
  end.

Definition extractImports (content : string) : list string :=
  fold_left
    (fun imports regex => fold_left pushImport (execAll regex content) imports)
    importRegexes [].

(** *** Import resolution *)

Definition resolveRelativeImport (importPath currentFile : string) : string :=
  let currentDir := Path.dirname currentFile in
  Path.normalize (Path.join currentDir importPath).

(** [list.sort(cmp)] is stable: [a] is put before the first [b] it does
    not have to follow. *)
Fixpoint insertSorted {A} (cmp : A -> A -> Z) (a : A) (l : list A) : list A :=
  match l with
  | [] => [a]
  | b :: l' => if (cmp a b <=? 0)%Z then a :: l else b :: insertSorted cmp a l'
  end.

Fixpoint sort {A} (cmp : A -> A -> Z) (l : list A) : list A :=
  match l with
  | [] => []
  | a :: l' => insertSorted cmp a (sort cmp l')
  end.

Definition resolveRemappedImport (importPath : string) (remappings : list Remapping)
  : option string :=
  let sortedRemappings :=
    sort (fun a b => (Z.of_nat (String.length (original b))
                      - Z.of_nat (String.length (original a)))%Z)
      (filter (fun mapping => JsString.startsWith importPath (original mapping))
         remappings) in
  match sortedRemappings with
  | mapping :: _ =>
      Some (JsString.replace importPath (original mapping) (resolved mapping))
  | [] => None
  end.

Definition pathSegments (p : string) : list string :=
  filter (fun s => negb (String.eqb s "") && negb (String.eqb s ".")
                   && negb (String.eqb s ".."))
    (JsString.split "/"%char p).

Definition pathContextMatches (importPath availablePath : string) : bool :=
  let importSegments := pathSegments importPath in
  let availableSegments := pathSegments availablePath in
  let matches :=
    fold_left
      (fun matches segment =>
         if JsString.mem segment availableSegments then S matches else matches)
      importSegments 0 in
  (Nat.max 1 (List.length importSegments - 1) <=? matches)%nat.

(** The result of [resolveImportPath], [None] for [null], and what the
    call writes on the console.  The first three strategies look a path up
    with [availableFiles[...]], the fourth goes through
    [Object.entries(availableFiles)]. *)
Definition resolveImportPath
  (importPath currentFile : string) (remappings : list Remapping)
  (availableFiles : JsObject.t SourceFile)
  : option (string * stored) * list console_event :=
  (* Strategy 1: the import path exists directly *)
  match JsObject.read availableFiles importPath with
  | Some file => (Some (importPath, file), [])
  | None =>
      (* Strategy 2: relative imports *)
      let relative :=
        if JsString.startsWith importPath "./" || JsString.startsWith importPath "../"
        then
          let resolvedPath := resolveRelativeImport importPath currentFile in
          match JsObject.read availableFiles resolvedPath with
          | Some file => Some (resolvedPath, file)
          | None => None
          end
        else None in
      match relative with
      | Some hit => (Some hit, [])
      | None =>
          (* Strategy 3: remapped imports *)
          let remapped :=
            match resolveRemappedImport importPath remappings with
            | Some remappedPath =>
                if negb (String.eqb remappedPath "")
                then match JsObject.read availableFiles remappedPath with
                     | Some file => Some (remappedPath, file)
                     | None => None
                     end
                else None
            | None => None
            end in
          match remapped with
          | Some hit => (Some hit, [])
          | None =>
              (* Strategy 4: search the available files by file name *)
              let fileName := Path.basename importPath in
              match find (fun entry =>
                            String.eqb (Path.basename (fst entry)) fileName
                            && pathContextMatches importPath (fst entry))
                      (JsObject.entries availableFiles) with
              | Some (filePath, fileContent) =>
                  (Some (filePath, JsObject.own fileContent), [])
              | None => (None, [warn_unresolved importPath currentFile])
              end
          end
      end
  end.

(** *** resolveNecessaryImports *)

(** The variables of the traversal. *)
Record state := mkState {
  queue : list string;
  processed : list string;
  necessaryFiles : JsObject.t stored;
  console : list console_event
}.

Definition hasRemappedVersion (resolver : ImportResolver) (originalPath : string) : bool :=
  existsb
    (fun remappedPath =>
       existsb
         (fun mapping =>
            JsString.startsWith originalPath (resolved mapping)
            && String.eqb remappedPath
                 (JsString.replace originalPath (resolved mapping) (original mapping)))
         (remappings resolver))
    (JsObject.keys (remappedSourceFiles resolver)).

(** The queue before the loop: the remapped paths, then the original paths
    that have no remapped version. *)
Definition initialQueue (resolver : ImportResolver) : list string :=
  JsObject.keys (remappedSourceFiles resolver)
  ++ filter (fun originalPath => negb (hasRemappedVersion resolver originalPath))
       (JsObject.keys (sourceFiles resolver)).

Definition allAvailableFiles (resolver : ImportResolver) : JsObject.t SourceFile :=
  JsObject.spread2 (sourceFiles resolver) (remappedSourceFiles resolver).

(** The body of the [for] loop over the imports of [currentFile]. *)
Definition enqueueImport
  (resolver : ImportResolver) (all : JsObject.t SourceFile)
  (currentFile : string) (processed : list string)
  (acc : list string * list console_event) (importPath : string)
  : list string * list console_event :=
  let (queue, console) := acc in
  let (resolvedImport, out) :=
    resolveImportPath importPath currentFile (remappings resolver) all in
  match resolvedImport with
  | Some (path, _) =>
      if negb (JsString.mem path processed)
      then (queue ++ [path], console ++ out)
      else (queue, console ++ out)
  | None => (queue, console ++ out)
  end.

(** [this.extractImports(allAvailableFiles[currentFile].content)].  A
    member of [Object.prototype] has no property [content]; [exec] is then
    applied to [undefined], which it converts to the text "undefined". *)
Definition importsOf (file : stored) : list string :=
  match file with
  | JsObject.own sourceFile => extractImports (content sourceFile)
  | JsObject.inherited _ => extractImports "undefined"
  end.

(** One turn of the [while] loop, the queue being [currentFile :: rest]. *)
Definition visit
  (resolver : ImportResolver) (all : JsObject.t SourceFile)
  (currentFile : string) (rest : list string) (st : state) : state :=
  if JsString.mem currentFile (processed st)
  then mkState rest (processed st) (necessaryFiles st) (console st)
  else
    let processed' := processed st ++ [currentFile] in
    match JsObject.read all currentFile with
    | Some file =>
        let necessaryFiles' := JsObject.assign currentFile file (necessaryFiles st) in
        let imports := importsOf file in
        let (queue', console') :=
          fold_left (enqueueImport resolver all currentFile processed')
            imports (rest, console st) in
        mkState queue' processed' necessaryFiles' console'
    | None => mkState rest processed' (necessaryFiles st) (console st)
    end.

(** The [while] loop; [None] when [fuel] turns do not empty the queue. *)
Fixpoint loop
  (fuel : nat) (resolver : ImportResolver) (all : JsObject.t SourceFile) (st : state)
  : option state :=
  match queue st with
  | [] => Some st
  | currentFile :: rest =>
      match fuel with
      | 0 => None
      | S fuel' => loop fuel' resolver all (visit resolver all currentFile rest st)
      end
  end.

Definition initialState (resolver : ImportResolver) : state :=
  mkState (initialQueue resolver) [] JsObject.empty [].

(** The work left: the length of the queue, and for every available file
    not yet processed two units and one more for each of its imports. *)
Definition workOf (all : JsObject.t SourceFile) (processed : list string) : nat :=
  list_sum
    (map (fun entry =>
            if JsString.mem (fst entry) processed then 0
            else 2 + List.length (extractImports (content (snd entry))))
       all).

Definition work (all : JsObject.t SourceFile) (st : state) : nat :=
  List.length (queue st) + workOf all (processed st).

(** The files the call returns and what it writes on the console.  The
    loop gets fuel for the work left at the start, which every turn
    decreases. *)
Definition resolveNecessaryImports (resolver : ImportResolver)
  : option (JsObject.t stored * list console_event) :=
  let all := allAvailableFiles resolver in
  let st := initialState resolver in
  match loop (work all st) resolver all st with
  | Some st' => Some (necessaryFiles st', console st')
  | None => None
  end.

(** *** verify *)

Section Verify.

(** The network: what [fetch(url, { method: "POST", ..., body })] and
    [response.json()] do for a given address and body. *)
Variable fetch : string -> RequestBody -> fetch_outcome.

(** The outcome of an [async] function that divergence aside either
    fulfils or rejects, together with the console output. *)
Definition io (A : Type) : Type := option (completion A * list console_event).

(** The statements of the [try] block. *)
Definition verifyTry (self : t) (request : VerificationRequest) : io value :=
  match
    (settings <- getProp (req_metadata request) "settings" ;;
     remappingsArray <- getProp settings "remappings" ;;
     parseRemappingsAny remappingsArray)
  with
  | Throw e => Some (Throw e, [])
  | Return remappings =>
      let remappedSourceFiles :=
        createRemappedSourceFiles (req_sourceFiles request) remappings in
      match resolveNecessaryImports
              (mkImportResolver (req_sourceFiles request) remappedSourceFiles
                 remappings) with
      | None => None
      | Some (necessaryFiles, out) =>
          let requestBody :=
            mkRequestBody
              (req_address request)
              (req_language request)
              (normalizeCompilerVersion (req_compiler request))
              (req_optimize request)
              (req_optimizeRuns request)
              necessaryFiles
              (req_license request)
              (req_evmVersion request)
              (req_viaIR request)
              (req_libraries request)
              ""
              (req_optimizerDetails request) in
          match fetch (baseUrl self) requestBody with
          | FetchRejected e => Some (Throw e, out)
          | JsonRejected e => Some (Throw e, out)
          | JsonParsed result => Some (Return result, out)
          end
      end
  end.

Definition errorCode8 : value := VObject [("errorCode", VNumber 8)].

(** [verify]: the [try] block and its [catch] clause. *)
Definition verify (self : t) (request : VerificationRequest) : io value :=
  match verifyTry self request with
  | None => None
  | Some (Return result, out) => Some (Return result, out)
  | Some (Throw error, out) =>
      Some (Return errorCode8, out ++ [error_verification_failed error])
  end.

End Verify.

End FilfoxVerifier.

(** ** Notions of the specification *)

Module Spec.

Import FilfoxVerifier.

(** The text of a rule before its first equals sign (all of it when there
    is none). *)
Fixpoint beforeEq (s : string) : string :=
  match s with
  | EmptyString => EmptyString
  | String c s' => if Ascii.eqb c "="%char then EmptyString else String c (beforeEq s')
  end.

(** The text of a rule after its first equals sign. *)
Fixpoint afterEq (s : string) : string :=
  match s with
  | EmptyString => EmptyString
  | String c s' => if Ascii.eqb c "="%char then s' else afterEq s'
  end.

(** A rule the specification calls malformed: no equals sign, or an empty
    side once split on the first one and trimmed. *)
Definition malformed (rule : string) : Prop :=
  JsString.includes rule "=" = false
  \/ JsString.trim (beforeEq rule) = ""
  \/ JsString.trim (afterEq rule) = "".

(** The rule the specification reads from a well-formed string. *)
Definition splitOnFirst (rule : string) : Remapping :=
  mkRemapping (JsString.trim (beforeEq rule)) (JsString.trim (afterEq rule)).

(** The rule [parseMapping] reads: the text before the first equals sign and
    the text between the first and the second one, both trimmed. *)
Definition firstTwoPieces (rule : string) : Remapping :=
  mkRemapping (JsString.trim (beforeEq rule)) (JsString.trim (beforeEq (afterEq rule))).

(** [distinct l]: the elements of [l] in the order of their first occurrence. *)
Definition pushDistinct (acc : list string) (x : string) : list string :=
  if JsString.mem x acc then acc else acc ++ [x].

Definition distinct (l : list string) : list string :=
  fold_left pushDistinct l [].

(** The import paths one pattern captures, from the start of the text to
    its end. *)
Definition captures (r : Regex.regex) (content : string) : list string :=
  flat_map (fun m => match Regex.group1 m with
                     | Some p => if String.eqb p "" then [] else [p]
                     | None => []
                     end)
    (Regex.execAll r content).

(** The imports in the order of their first appearance in the text: the
    matches of the four patterns together, by position. *)
Definition importsInTextOrder (content : string) : list string :=
  distinct
    (flat_map (fun m => match Regex.group1 m with
                        | Some p => if String.eqb p "" then [] else [p]
                        | None => []
                        end)
       (sort (fun a b => (Z.of_nat (Regex.index a) - Z.of_nat (Regex.index b))%Z)
          (flat_map (fun r => Regex.execAll r content) importRegexes))).

(** [resolvesTo resolver f p]: what the available files hold at [f] has an
    import that [resolveImportPath] resolves to the path [p]. *)
Definition resolvesTo (resolver : ImportResolver) (f p : string) : Prop :=
  exists file importPath c,
    JsObject.read (allAvailableFiles resolver) f = Some file
    /\ In importPath (importsOf file)
    /\ fst (resolveImportPath importPath f (remappings resolver)
              (allAvailableFiles resolver)) = Some (p, c).

(** The seeds of the traversal: the remapped paths, and the original paths
    with no remapped version, that is, those that no rule whose resolved
    prefix starts them turns into a remapped path. *)
Definition seed (resolver : ImportResolver) (k : string) : Prop :=
  In k (JsObject.keys (remappedSourceFiles resolver))
  \/ (In k (JsObject.keys (sourceFiles resolver))
      /\ forall mapping,
           In mapping (remappings resolver) ->
           JsString.startsWith k (resolved mapping) = true ->
           ~ In (JsString.replace k (resolved mapping) (original mapping))
               (JsObject.keys (remappedSourceFiles resolver))).

(** The paths the traversal can reach: the seeds, and what the imports of a
    reached file resolve to. *)
Inductive Reachable (resolver : ImportResolver) : string -> Prop :=
| reach_seed k :
    seed resolver k -> Reachable resolver k
| reach_import f p :
    Reachable resolver f -> resolvesTo resolver f p -> Reachable resolver p.

(** What holds of the variables of the traversal at every turn of the loop:
    queued and processed paths are reachable; the files collected are what
    the available files hold at the processed paths, [__proto__] apart;
    what an import of a processed file resolves to is processed or queued,
    and so is every seed; the console holds what the resolution of these
    imports wrote. *)
Record invariant (resolver : ImportResolver) (st : state) : Prop := mkInvariant {
  inv_reach :
    forall k, In k (queue st) \/ In k (processed st) -> Reachable resolver k;
  inv_files :
    forall k, JsObject.get (necessaryFiles st) k
              = if JsString.mem k (processed st) && negb (String.eqb k "__proto__")
                then JsObject.read (allAvailableFiles resolver) k
                else None;
  inv_closed :
    forall f p, In f (processed st) -> resolvesTo resolver f p ->
                In p (processed st) \/ In p (queue st);
  inv_seeds :
    forall k, In k (initialQueue resolver) ->
              In k (processed st) \/ In k (queue st);
  inv_console :
    forall f file i ev,
      In f (processed st) ->
      JsObject.read (allAvailableFiles resolver) f = Some file ->
      In i (importsOf file) ->
      In ev (snd (resolveImportPath i f (remappings resolver)
                    (allAvailableFiles resolver))) ->
      In ev (console st)
}.

(** An occurrence of a dollar sign, which [String.prototype.replace] reads
    as the start of a replacement pattern. *)
Definition dollarFree (s : string) : Prop := JsString.includes s "$" = false.

End Spec.

(** ** Concrete inputs *)

Module Examples.

Import FilfoxVerifier.

Definition dq : string := String Regex.doubleQuote EmptyString.

Definition files (l : list (string * string)) : JsObject.t SourceFile :=
  map (fun kv => (fst kv, mkSourceFile (snd kv))) l.

(** An object whose properties all hold source files, as the traversal
    stores them. *)
Definition storedFiles (o : JsObject.t SourceFile) : JsObject.t stored :=
  map (fun kv => (fst kv, JsObject.own (snd kv))) o.

(** The resolver [verify] builds from source files and remapping rules. *)
Definition resolverOf (sources : JsObject.t SourceFile) (rules : list string)
  : completion ImportResolver :=
  remappings <- parseRemappings rules ;;
  Return (mkImportResolver sources (createRemappedSourceFiles sources remappings)
            remappings).

Definition importOf (p : string) : string := "import " ++ dq ++ p ++ dq ++ ";".

(** A imports B; nothing imports C. *)
Definition abcFiles : JsObject.t SourceFile :=
  files [ ("A.sol", importOf "./B.sol");
          ("B.sol", "contract B {}");
          ("C.sol", "contract C {}") ].

Definition abcResolver : ImportResolver :=
  mkImportResolver abcFiles (createRemappedSourceFiles abcFiles []) [].

(** A file at each side of the rule "@lib/=lib/token/" and a file that
    imports "@lib/Token.sol". *)
Definition tokenRules : list string := ["@lib/=lib/token/"].

Definition tokenRemappings : list Remapping := [mkRemapping "@lib/" "lib/token/"].

Definition tokenFiles : JsObject.t SourceFile :=
  files [ ("Main.sol", importOf "@lib/Token.sol");
          ("@lib/Token.sol", "contract TokenAtOriginal {}");
          ("lib/token/Token.sol", "contract TokenAtResolved {}") ].

Definition tokenResolver : ImportResolver :=
  mkImportResolver tokenFiles (createRemappedSourceFiles tokenFiles tokenRemappings)
    tokenRemappings.

(** Files at the same three paths, with any texts, in each order an object
    can list them. *)
Definition tokenFileOrders (textOfMain textAtOriginal textAtResolved : string)
  : list (JsObject.t SourceFile) :=
  let main := ("Main.sol", textOfMain) in
  let atOriginal := ("@lib/Token.sol", textAtOriginal) in
  let atResolved := ("lib/token/Token.sol", textAtResolved) in
  map files
    [ [main; atOriginal; atResolved]; [main; atResolved; atOriginal];
      [atOriginal; main; atResolved]; [atOriginal; atResolved; main];
      [atResolved; main; atOriginal]; [atResolved; atOriginal; main] ].

(** A file that imports the path "constructor", the name of a member of
    [Object.prototype]. *)
Definition constructorFiles : JsObject.t SourceFile :=
  files [ ("A.sol", importOf "constructor") ].

Definition constructorResolver : ImportResolver :=
  mkImportResolver constructorFiles (createRemappedSourceFiles constructorFiles []) [].

(** A braces import followed by a plain import. *)
Definition interleaved : string :=
  "import {X} from " ++ dq ++ "a.sol" ++ dq ++ "; " ++ importOf "b.sol".



Definition ozRemappings : list Remapping :=
  [mkRemapping "@oz/" "lib/a/"; mkRemapping "@oz/utils/" "lib/b/"].

Definition sampleRequest (metadata : value) : VerificationRequest :=
  mkVerificationRequest "0x0000000000000000000000000000000000000001" "Solidity"
    "0.8.20+commit.a1b79de6" true 200 abcFiles "" "paris" false "" metadata "{}".

Definition metadataWith (rules : list string) : value :=
  VObject [("settings", VObject [("remappings", VArray (map VString rules))])].

End Examples.

(** ** Statements of the specification that the code does not satisfy *)

Module Claimed.

Import FilfoxVerifier.

(** Section 8, end-to-end scenario: the closure of A, B and C has the key
    set A, B. *)
Definition closureOfAbcIsAB : Prop :=
  exists necessary out,
    resolveNecessaryImports Examples.abcResolver = Some (necessary, out)
    /\ forall k, JsObject.has necessary k = true <-> (k = "A.sol" \/ k = "B.sol").

(** Section 8, remapping precedence: one Token entry, keyed at
    "lib/token/Token.sol", with the content of the file at "@lib/Token.sol". *)
Definition tokenKeyedAtResolvedPath : Prop :=
  exists necessary out,
    resolveNecessaryImports Examples.tokenResolver = Some (necessary, out)
    /\ JsObject.get necessary "lib/token/Token.sol"
       = option_map JsObject.own (JsObject.get Examples.tokenFiles "@lib/Token.sol")
    /\ JsObject.has necessary "@lib/Token.sol" = false.

(** Section 4.1: a split on the first equals sign, and a configuration error
    for a malformed rule. *)
Definition parsesOrConfigError (rules : list string) : Prop :=
  (Forall (fun r => ~ Spec.malformed r) rules ->
   parseRemappings rules = Return (map Spec.splitOnFirst rules))
  /\ (Exists Spec.malformed rules ->
      exists msg, parseRemappings rules = Throw (mkError "ConfigError" msg)).

(** Section 4.2: the imports come in the order of their first appearance. *)
Definition importsInOrderOfAppearance (content : string) : Prop :=
  extractImports content = Spec.importsInTextOrder content.

End Claimed.

(** ** The command (commands/verify-filfox.ts) *)

Module Command.

(** The texts the command shows on its spinner, each without its leading
    symbol; the values interpolated into a text are its arguments. *)
Inductive spinner_text :=
| text_verified (contractName : value)   (* Contract ... verified successfully! *)
| text_view_at (url : string)            (* View at: ... *)
| text_no_source                         (* Error: No source file provided. *)
| text_no_initcode                       (* Error: Contract initCode not found. *)
| text_version_format                    (* Error: Compiler version format incorrect. *)
| text_use_long_format                   (* Use long format (e.g., ...) *)
| text_bytecode_mismatch                 (* Error: Verification failed - bytecode mismatch. *)
| text_check_sources                     (* Check source files and compiler settings. *)
| text_unsupported_language              (* Error: Unsupported language (Solidity only). *)
| text_already_verified (url : string)   (* Contract already verified at: ... *)
| text_compilation_error                 (* Compilation error in source files. *)
| text_details (errorMsg : value)        (* Details: ... *)
| text_unknown_error.                    (* Unknown verification error occurred. *)

Inductive spinner_call :=
| succeed (text : spinner_text)
| fail (text : spinner_text).

Definition explorerUrls : list (Z * string) :=
  [ (314159%Z, "https://calibration.filfox.info/en/address/");
    (314%Z, "https://filfox.info/en/address/") ].

(** A value of [explorerUrls] inside a template literal. *)
Definition showUrl (explorerUrl : option string) : string :=
  match explorerUrl with
  | Some url => url
  | None => "undefined"
  end.

(** [handleVerificationResult]: the calls made on the spinner, or the
    exception of [result.errorCode] on a result that has no properties. *)
Definition handleVerificationResult (result : value) (chainId : Z) (address : string)
  : completion (list spinner_call) :=
  let explorerUrl := FilfoxVerifier.lookupNetwork explorerUrls chainId in
  errorCode <- getProp result "errorCode" ;;
  match errorCode with
  | VNumber 0 =>
      contractName <- getProp result "contractName" ;;
      Return [ succeed (text_verified contractName);
               succeed (text_view_at (showUrl explorerUrl ++ address)) ]
  | VNumber 1 => Return [fail text_no_source]
  | VNumber 2 => Return [fail text_no_initcode]
  | VNumber 3 => Return [fail text_version_format; fail text_use_long_format]
  | VNumber 4 => Return [fail text_bytecode_mismatch; fail text_check_sources]
  | VNumber 5 => Return [fail text_unsupported_language]
  | VNumber 6 =>
      Return [succeed (text_already_verified (showUrl explorerUrl ++ address))]
  | VNumber 7 =>
      errorMsg <- getProp result "errorMsg" ;;
      Return [fail text_compilation_error; fail (text_details errorMsg)]
  | _ => Return [fail text_unknown_error]
  end.

(** The first statements of the [try] block of the action:
    [contract.split(":")], the first two pieces destructured, and the test
    that neither is missing or empty. *)
Definition parseContractArgument (contract : string) : completion (string * string) :=
  match JsString.split ":"%char contract with
  | contractPath :: contractName :: _ =>
      if String.eqb contractPath "" || String.eqb contractName ""
      then Throw (Error "Contract must be in format src/Contract.sol:ContractName")
      else Return (contractPath, contractName)
  | _ => Throw (Error "Contract must be in format src/Contract.sol:ContractName")
  end.

End Command.

(** ** Notions used to state further properties *)

Module Notions.

(** A path segment that [normalize] keeps as it is. *)
Definition plainSegment (s : string) : Prop :=
  s <> "" /\ s <> "." /\ s <> ".." /\ JsString.includes s "/" = false.

(** The text before the first occurrence of a character (all of the text when
    there is none) and the text after it. *)
Fixpoint before (sep : ascii) (s : string) : string :=
  match s with
  | EmptyString => EmptyString
  | String c s' => if Ascii.eqb c sep then EmptyString else String c (before sep s')
  end.

Fixpoint after (sep : ascii) (s : string) : string :=
  match s with
  | EmptyString => EmptyString
  | String c s' => if Ascii.eqb c sep then s' else after sep s'
  end.

(** The resolver [verify] builds from the source files of a request and its
    parsed remappings. *)
Definition resolverOf (sources : JsObject.t SourceFile) (remappings : list Remapping)
  : ImportResolver :=
  mkImportResolver sources
    (FilfoxVerifier.createRemappedSourceFiles sources remappings) remappings.

(** The number of quote characters of a text, and the number of pieces of a
    pattern that match one quote. *)
Definition quotes (s : string) : nat :=
  List.length (filter Regex.isQuote (list_ascii_of_string s)).

Fixpoint quoteNodes (r : Regex.regex) : nat :=
  match r with
  | [] => 0
  | Regex.Class Regex.Quote :: r' => S (quoteNodes r')
  | _ :: r' => quoteNodes r'
  end.

End Notions.

(** * Properties *)

(** ** Strings *)

Module StringFacts.
Import JsString.

Lemma mem_In (x : string) (l : list string) : mem x l = true <-> In x l.
Proof.
  unfold mem. rewrite existsb_exists. split.
  - intros [y [Hy Heq]]. apply String.eqb_eq in Heq. now subst.
  - intros H. exists x. split; [assumption | apply String.eqb_refl].
Qed.

Lemma mem_false (x : string) (l : list string) : mem x l = false <-> ~ In x l.
Proof.
  rewrite <- mem_In. destruct (mem x l); split; congruence.
Qed.

Lemma mem_app (x : string) (l1 l2 : list string) :
  mem x (l1 ++ l2) = mem x l1 || mem x l2.
Proof. unfold mem. apply existsb_app. Qed.

Lemma startsWith_app (p s : string) : startsWith (p ++ s) p = true.
Proof.
  induction p as [|c p IH]; simpl; [reflexivity|].
  now rewrite Ascii.eqb_refl.
Qed.

Lemma startsWith_split (s p : string) :
  startsWith s p = true -> s = (p ++ drop (String.length p) s)%string.
Proof.
  revert s. induction p as [|c p IH]; intros s H; simpl in *.
  - now destruct s.
  - destruct s as [|d s]; [discriminate|].
    apply andb_true_iff in H as [Hc Hp]. apply Ascii.eqb_eq in Hc. subst d.
    simpl. f_equal. now apply IH.
Qed.

Lemma indexOf_startsWith (s p : string) :
  startsWith s p = true -> indexOf s p = Some 0.
Proof. intros H. destruct s; simpl in *; now rewrite H. Qed.

Lemma includes_cons (c d : ascii) (s : string) :
  includes (String c s) (String d "") = Ascii.eqb c d || includes s (String d "").
Proof.
  unfold includes. simpl. destruct s; simpl; destruct (Ascii.eqb c d); simpl; try reflexivity.
  destruct (Ascii.eqb a d); simpl; try reflexivity.
  destruct (indexOf s (String d "")); reflexivity.
Qed.

Lemma getSubstitution_dollarFree (m b a repl : string) :
  includes repl "$" = false -> getSubstitution m b a repl = repl.
Proof.
  induction repl as [|c r IH]; intros H; [reflexivity|].
  rewrite includes_cons in H. apply orb_false_iff in H as [Hc Hr].
  specialize (IH Hr).
  assert (Hne : c <> "$"%char) by (intros ->; discriminate).
  simpl. 
  destruct c as [[] [] [] [] [] [] [] []]; try (now rewrite IH); try (exfalso; apply Hne; reflexivity).
  all: destruct r; simpl in *; try rewrite IH; try reflexivity.
Qed.

Lemma replace_prefix (s pat repl : string) :
  startsWith s pat = true -> includes repl "$" = false ->
  replace s pat repl = (repl ++ drop (String.length pat) s)%string.
Proof.
  intros Hs Hr. unfold replace. rewrite (indexOf_startsWith _ _ Hs). simpl.
  now rewrite getSubstitution_dollarFree.
Qed.

End StringFacts.

(** ** The compiler version and the constructor *)

Module VersionFacts.
Import JsString FilfoxVerifier.

Lemma normalize_keeps_v_prefixed (compiler : string) :
  startsWith compiler "v" = true -> normalizeCompilerVersion compiler = compiler.
Proof.
  intros H. unfold normalizeCompilerVersion, includes.
  now rewrite (StringFacts.indexOf_startsWith _ _ H).
Qed.

Lemma normalize_prepends_v (compiler : string) :
  includes compiler "v" = false ->
  normalizeCompilerVersion compiler = ("v" ++ compiler)%string.
Proof. intros H. unfold normalizeCompilerVersion. now rewrite H. Qed.

(** C4.  [normalizeCompilerVersion] tests whether the version contains the
    letter v, not whether it starts with it: the version 0.8.20-develop,
    which has a v inside, is returned as it is and so does not start with
    v, although it is neither v-prefixed nor given the prefix. *)
Theorem normalizeCompilerVersion_develop :
  normalizeCompilerVersion "0.8.20-develop" = "0.8.20-develop"
  /\ startsWith (normalizeCompilerVersion "0.8.20-develop") "v" = false
  /\ startsWith "0.8.20-develop" "v" = false
  /\ normalizeCompilerVersion "0.8.20-develop" <> "v0.8.20-develop".
Proof. repeat split; try reflexivity. discriminate. Qed.

End VersionFacts.

Module ConstructorFacts.
Import FilfoxVerifier.

(** C8.  Chain 314 selects the mainnet address, chain 314159 the calibration
    address, the two differ, and every other chain id makes the constructor
    throw, so that no verifier exists on which [verify] could run. *)
Theorem constructor_selects_endpoint (chainId : Z) :
  (chainId = 314%Z ->
   constructor chainId
   = Return (mkVerifier "https://filfox.info/api/v1/tools/verifyContract" 314))
  /\ (chainId = 314159%Z ->
      constructor chainId
      = Return (mkVerifier
                  "https://calibration.filfox.info/api/v1/tools/verifyContract" 314159))
  /\ (chainId <> 314%Z -> chainId <> 314159%Z ->
      constructor chainId
      = Throw (Error ("Unsupported chain ID: " ++ showNumber chainId)))
  /\ "https://filfox.info/api/v1/tools/verifyContract"
     <> "https://calibration.filfox.info/api/v1/tools/verifyContract".
Proof.
  repeat split.
  - intros ->. reflexivity.
  - intros ->. reflexivity.
  - intros H1 H2. unfold constructor, FILFOX_NETWORKS, lookupNetwork.
    destruct (Z.eqb_spec 314 chainId) as [E|_]; [congruence|].
    destruct (Z.eqb_spec 314159 chainId) as [E|_]; [congruence|].
    reflexivity.
  - discriminate.
Qed.

Lemma constructor_selects_endpoint_witness :
  constructor 314 = Return (mkVerifier "https://filfox.info/api/v1/tools/verifyContract" 314)
  /\ constructor 314159
     = Return (mkVerifier "https://calibration.filfox.info/api/v1/tools/verifyContract" 314159)
  /\ constructor 1 = Throw (Error "Unsupported chain ID: 1").
Proof.
  split; [| split].
  - apply (proj1 (constructor_selects_endpoint 314)). reflexivity.
  - apply (proj1 (proj2 (constructor_selects_endpoint 314159))). reflexivity.
  - apply (proj1 (proj2 (proj2 (constructor_selects_endpoint 1)))); discriminate.
Defined.

End ConstructorFacts.

(** ** Remapping rules *)

Module RemappingFacts.
Import JsString FilfoxVerifier Spec.

Lemma split_no_separator (s : string) :
  includes s "=" = false -> split "="%char s = [s].
Proof.
  induction s as [|c s IH]; intros H; [reflexivity|].
  rewrite StringFacts.includes_cons in H. apply orb_false_iff in H as [Hc Hs].
  simpl. rewrite Hc. now rewrite (IH Hs).
Qed.

Lemma split_head (s : string) :
  exists ps, split "="%char s = beforeEq s :: ps.
Proof.
  induction s as [|c s [ps IH]]; simpl.
  - now exists [].
  - destruct (Ascii.eqb c "=").
    + eexists. reflexivity.
    + rewrite IH. eexists. reflexivity.
Qed.

Lemma split_separator (s : string) :
  includes s "=" = true ->
  split "="%char s = beforeEq s :: split "="%char (afterEq s).
Proof.
  induction s as [|c s IH]; intros H; [discriminate|].
  rewrite StringFacts.includes_cons in H. simpl.
  destruct (Ascii.eqb c "=") eqn:Hc; [reflexivity|].
  simpl in H. now rewrite (IH H).
Qed.

Lemma parseMapping_separator (mapping : string) :
  includes mapping "=" = true ->
  parseMapping mapping = Return (firstTwoPieces mapping).
Proof.
  intros H. unfold parseMapping. rewrite (split_separator _ H).
  destruct (split_head (afterEq mapping)) as [ps ->]. reflexivity.
Qed.

Lemma parseMapping_no_separator (mapping : string) :
  includes mapping "=" = false ->
  parseMapping mapping
  = Throw (TypeError "Cannot read properties of undefined (reading 'trim')").
Proof.
  intros H. unfold parseMapping. now rewrite (split_no_separator _ H).
Qed.

Lemma beforeEq_no_separator (s : string) :
  includes s "=" = false -> beforeEq s = s.
Proof.
  induction s as [|c s IH]; intros H; [reflexivity|].
  rewrite StringFacts.includes_cons in H. apply orb_false_iff in H as [Hc Hs].
  simpl. rewrite Hc. now rewrite (IH Hs).
Qed.

Lemma parseRemappings_separated (rules : list string) :
  Forall (fun r => includes r "=" = true) rules ->
  parseRemappings rules = Return (map firstTwoPieces rules).
Proof.
  induction 1 as [|r rules Hr _ IH]; [reflexivity|].
  unfold parseRemappings in *. simpl.
  rewrite (parseMapping_separator _ Hr). simpl. now rewrite IH.
Qed.

Lemma parseRemappings_unseparated (rules : list string) :
  Exists (fun r => includes r "=" = false) rules ->
  parseRemappings rules
  = Throw (TypeError "Cannot read properties of undefined (reading 'trim')").
Proof.
  induction rules as [|r rules IH]; intros H; [inversion H|].
  unfold parseRemappings in *. simpl.
  destruct (includes r "=") eqn:Hr.
  - rewrite (parseMapping_separator _ Hr). simpl.
    rewrite IH; [reflexivity|]. inversion H; subst; [congruence | assumption].
  - now rewrite (parseMapping_no_separator _ Hr).
Qed.

(** C3, as the code has it.  [parseRemappings] splits each rule on every
    equals sign and keeps the first two pieces, trimmed: when every rule has
    an equals sign it returns these rules, empty sides included, and for a
    rule with a single equals sign they are the two sides of the split on the
    first one; when some rule has no equals sign the call throws a
    [TypeError]. *)
Theorem parseRemappings_first_two_pieces (rules : list string) :
  (Forall (fun r => includes r "=" = true) rules ->
   parseRemappings rules = Return (map firstTwoPieces rules))
  /\ (Exists (fun r => includes r "=" = false) rules ->
      parseRemappings rules
      = Throw (TypeError "Cannot read properties of undefined (reading 'trim')"))
  /\ (forall r, includes (afterEq r) "=" = false -> firstTwoPieces r = splitOnFirst r).
Proof.
  split; [| split].
  - apply parseRemappings_separated.
  - apply parseRemappings_unseparated.
  - intros r H. unfold firstTwoPieces, splitOnFirst.
    now rewrite (beforeEq_no_separator _ H).
Qed.

Lemma parseRemappings_first_two_pieces_witness :
  parseRemappings ["@oz/ = lib/oz/"; "a=b=c"; "a="]
  = Return [mkRemapping "@oz/" "lib/oz/"; mkRemapping "a" "b"; mkRemapping "a" ""]
  /\ parseRemappings ["a=b"; "no separator"]
     = Throw (TypeError "Cannot read properties of undefined (reading 'trim')")
  /\ firstTwoPieces "@oz/ = lib/oz/" = splitOnFirst "@oz/ = lib/oz/".
Proof.
  split; [| split].
  - apply (proj1 (parseRemappings_first_two_pieces ["@oz/ = lib/oz/"; "a=b=c"; "a="])).
    repeat constructor.
  - apply (proj1 (proj2 (parseRemappings_first_two_pieces ["a=b"; "no separator"]))).
    apply Exists_cons_tl, Exists_cons_hd. reflexivity.
  - apply (proj2 (proj2 (parseRemappings_first_two_pieces []))). reflexivity.
Defined.

(** C3, as the specification has it, fails on the rule with an empty side:
    it is malformed, and [parseRemappings] returns a rule for it. *)
Lemma parseRemappings_accepts_empty_side :
  ~ Claimed.parsesOrConfigError ["a="].
Proof.
  intros [_ H].
  destruct H as [msg H].
  - apply Exists_cons_hd. right. right. reflexivity.
  - discriminate H.
Qed.

(** A rule with no equals sign raises a [TypeError], no configuration
    error. *)
Lemma parseRemappings_no_separator_TypeError :
  exists e, parseRemappings ["a"] = Throw e /\ err_name e = "TypeError".
Proof. eexists. split; reflexivity. Qed.

End RemappingFacts.

(** ** extractImports *)

Module ExtractFacts.
Import JsString FilfoxVerifier Spec.

Lemma fold_step_In (l acc : list string) (x : string) :
  In x (fold_left pushDistinct l acc) <-> In x acc \/ In x l.
Proof.
  revert acc. induction l as [|y l IH]; intros acc; simpl.
  - tauto.
  - rewrite IH. unfold pushDistinct. destruct (mem y acc) eqn:Hy.
    + apply StringFacts.mem_In in Hy. split; [tauto|].
      intros [H|[->|H]]; tauto.
    + rewrite in_app_iff. simpl. tauto.
Qed.

Lemma fold_step_NoDup (l acc : list string) :
  NoDup acc -> NoDup (fold_left pushDistinct l acc).
Proof.
  revert acc. induction l as [|y l IH]; intros acc Hacc; simpl; [assumption|].
  apply IH. unfold pushDistinct. destruct (mem y acc) eqn:Hy; [assumption|].
  apply StringFacts.mem_false in Hy.
  apply NoDup_app; [assumption | repeat constructor; intros [] |].
  intros a Ha [<-|[]]. contradiction.
Qed.

Lemma distinct_In (l : list string) (x : string) : In x (distinct l) <-> In x l.
Proof. unfold distinct. rewrite fold_step_In. simpl. tauto. Qed.

Lemma distinct_NoDup (l : list string) : NoDup (distinct l).
Proof. unfold distinct. apply fold_step_NoDup. constructor. Qed.

Lemma pushImport_step (ms : list Regex.matchResult) (acc : list string) :
  fold_left pushImport ms acc
  = fold_left pushDistinct
      (flat_map (fun m => match Regex.group1 m with
                          | Some p => if String.eqb p "" then [] else [p]
                          | None => []
                          end) ms) acc.
Proof.
  revert acc. induction ms as [|m ms IH]; intros acc; [reflexivity|].
  simpl. rewrite fold_left_app, IH. f_equal.
  unfold pushImport. destruct (Regex.group1 m) as [p|]; [|reflexivity].
  destruct (String.eqb p ""); simpl; [reflexivity|].
  unfold pushDistinct. now destruct (mem p acc).
Qed.

Lemma extractImports_fold (content : string) (rs : list Regex.regex) (acc : list string) :
  fold_left
    (fun imports regex => fold_left pushImport (Regex.execAll regex content) imports)
    rs acc
  = fold_left pushDistinct (flat_map (fun r => captures r content) rs) acc.
Proof.
  revert acc. induction rs as [|r rs IH]; intros acc; [reflexivity|].
  simpl. rewrite fold_left_app, IH. f_equal. apply pushImport_step.
Qed.

Lemma execLoop_sorted (r : Regex.regex) (s : string) (pos skip : nat) :
  Forall (fun m => pos <= Regex.index m) (Regex.execLoop r s pos skip)
  /\ StronglySorted (fun a b => Regex.index a < Regex.index b)
       (Regex.execLoop r s pos skip).
Proof.
  revert pos skip. induction s as [|c s IH]; intros pos skip; simpl.
  - split; constructor.
  - assert (Hweak : forall k,
               Forall (fun m => pos <= Regex.index m) (Regex.execLoop r s (S pos) k)).
    { intros k. destruct (IH (S pos) k) as [H _].
      eapply Forall_impl; [|exact H]. simpl. intros; lia. }
    destruct skip as [|k]; [|split; [apply Hweak | apply IH]].
    destruct (Regex.matchHere r (String c s)) as [[cap rest]|];
      [|split; [apply Hweak | apply IH]].
    split.
    + constructor; [simpl; lia | apply Hweak].
    + constructor; [apply IH|].
      destruct (IH (S pos) (String.length (String c s) - String.length rest - 1))
        as [H _].
      eapply Forall_impl; [|exact H]. simpl. intros; lia.
Qed.

(** C5, as the code has it.  [extractImports] returns the distinct import
    paths pattern by pattern: the paths of the first form, then those of the
    second, the third and the fourth, each path at its first occurrence in
    that sequence; within one form the matches come in the order of the text.
    The result has no duplicates, it holds exactly the captured paths, and
    each of the four forms is recognized. *)
Theorem extractImports_by_pattern (content : string) :
  extractImports content
  = distinct (flat_map (fun r => captures r content) importRegexes)
  /\ NoDup (extractImports content)
  /\ (forall p, In p (extractImports content)
                <-> exists r, In r importRegexes /\ In p (captures r content))
  /\ (forall r, StronglySorted (fun a b => Regex.index a < Regex.index b)
                  (Regex.execAll r content))
  /\ extractImports (Examples.importOf "a.sol") = ["a.sol"]
  /\ extractImports ("import { X, Y } from 'b.sol';") = ["b.sol"]
  /\ extractImports ("import * as Lib from 'c.sol';") = ["c.sol"]
  /\ extractImports ("import Lib from 'd.sol';") = ["d.sol"].
Proof.
  assert (E : extractImports content
              = distinct (flat_map (fun r => captures r content) importRegexes)).
  { unfold extractImports. now rewrite extractImports_fold. }
  split; [exact E|]. rewrite E.
  split; [apply distinct_NoDup|].
  split.
  { intros p. rewrite distinct_In, in_flat_map. reflexivity. }
  split.
  { intros r. apply execLoop_sorted. }
  repeat split; vm_compute; reflexivity.
Qed.

(** C5, as the specification has it, fails when the forms interleave: in
    the text [import {X} from "a.sol"; import "b.sol";] the path a.sol
    appears first, and [extractImports] lists b.sol first. *)
Lemma extractImports_interleaved_forms :
  ~ Claimed.importsInOrderOfAppearance Examples.interleaved.
Proof.
  unfold Claimed.importsInOrderOfAppearance.
  assert (H1 : extractImports Examples.interleaved = ["b.sol"; "a.sol"])
    by (vm_compute; reflexivity).
  assert (H2 : importsInTextOrder Examples.interleaved = ["a.sol"; "b.sol"])
    by (vm_compute; reflexivity).
  rewrite H1, H2. discriminate.
Qed.

End ExtractFacts.

(** ** Objects *)

Module ObjectFacts.
Import JsObject.

Section Facts.
Context {V : Type}.
Implicit Types (o : JsObject.t V) (k : string) (v : V).

Lemma has_get o k : has o k = true <-> exists v, get o k = Some v.
Proof.
  unfold has. destruct (get o k) as [v|]; split; try congruence.
  - intros _. now exists v.
  - intros [v Hv]. discriminate.
Qed.

Lemma has_false_get o k : has o k = false <-> get o k = None.
Proof. unfold has. destruct (get o k); split; congruence. Qed.

Lemma has_keys o k : has o k = true <-> In k (keys o).
Proof.
  unfold has, keys. induction o as [|[k' v'] o IH]; simpl.
  - split; [discriminate | tauto].
  - destruct (String.eqb_spec k' k) as [->|Hne].
    + split; auto.
    + rewrite IH. split; [auto | intros [H|H]; [contradiction | assumption]].
Qed.

Lemma get_In o k v : get o k = Some v -> In (k, v) o.
Proof.
  induction o as [|[k' v'] o IH]; simpl; [discriminate|].
  destruct (String.eqb_spec k' k) as [->|Hne].
  - intros [= ->]. now left.
  - intros H. right. now apply IH.
Qed.

Lemma In_has o k v : In (k, v) o -> has o k = true.
Proof.
  intros H. apply has_keys. unfold keys. change k with (fst (k, v)). now apply in_map.
Qed.

Lemma get_overwrite o k v k' :
  has o k = true ->
  get (overwrite k v o) k' = if String.eqb k k' then Some v else get o k'.
Proof.
  unfold has. induction o as [|[k0 v0] o IH]; simpl; [discriminate|].
  destruct (String.eqb_spec k0 k) as [->|Hne]; intros H; simpl.
  - destruct (String.eqb_spec k k'); reflexivity.
  - rewrite (IH H). destruct (String.eqb_spec k0 k') as [->|]; [|reflexivity].
    destruct (String.eqb_spec k k'); congruence.
Qed.

Lemma get_insertIndex n o k v k' :
  has o k = false ->
  get (insertIndex n k v o) k' = if String.eqb k k' then Some v else get o k'.
Proof.
  unfold has. induction o as [|[k0 v0] o IH]; simpl; [reflexivity|].
  destruct (String.eqb_spec k0 k) as [->|Hne]; [discriminate|]. intros H.
  destruct (arrayIndex k0) as [m|]; [destruct (n <? m)%N|]; simpl; try reflexivity.
  rewrite (IH H). destruct (String.eqb_spec k0 k') as [->|]; [|reflexivity].
  destruct (String.eqb_spec k k'); congruence.
Qed.

Lemma get_append o k v k' :
  has o k = false ->
  get (o ++ [(k, v)]) k' = if String.eqb k k' then Some v else get o k'.
Proof.
  unfold has. induction o as [|[k0 v0] o IH]; simpl; [reflexivity|].
  destruct (String.eqb_spec k0 k) as [->|Hne]; [discriminate|]. intros H.
  rewrite (IH H). destruct (String.eqb_spec k0 k') as [->|]; [|reflexivity].
  destruct (String.eqb_spec k k'); congruence.
Qed.

(** A write followed by a read. *)
Lemma get_set o k v k' :
  get (set k v o) k' = if String.eqb k k' then Some v else get o k'.
Proof.
  unfold set. destruct (has o k) eqn:Hk.
  - now apply get_overwrite.
  - destruct (arrayIndex k); [now apply get_insertIndex | now apply get_append].
Qed.

Lemma has_set o k v k' : has (set k v o) k' = String.eqb k k' || has o k'.
Proof. unfold has. rewrite get_set. now destruct (String.eqb k k'). Qed.

Lemma get_fold_set (l : list (string * V)) o k :
  get (fold_left (fun o kv => set (fst kv) (snd kv) o) l o) k
  = match get (rev l) k with
    | Some v => Some v
    | None => get o k
    end.
Proof.
  revert o. induction l as [|[k0 v0] l IH]; intros o; simpl; [reflexivity|].
  rewrite IH, get_set. clear IH.
  assert (E : get (rev l ++ [(k0, v0)]) k
              = match get (rev l) k with
                | Some v => Some v
                | None => if String.eqb k0 k then Some v0 else None
                end).
  { induction (rev l) as [|[k1 v1] r IHr]; simpl; [reflexivity|].
    destruct (String.eqb k1 k); [reflexivity | exact IHr]. }
  rewrite E. destruct (get (rev l) k); [reflexivity|].
  now destruct (String.eqb k0 k).
Qed.

Lemma has_rev o k : has (rev o) k = has o k.
Proof.
  destruct (has o k) eqn:H.
  - apply has_keys. apply has_keys in H. unfold keys in *.
    rewrite map_rev. now apply in_rev in H.
  - destruct (has (rev o) k) eqn:H'; [|reflexivity].
    apply has_keys in H'. unfold keys in H'. rewrite map_rev in H'.
    apply in_rev in H'. apply has_keys in H'. congruence.
Qed.

Lemma get_rev_NoDup o k : NoDup (keys o) -> get (rev o) k = get o k.
Proof.
  induction o as [|[k0 v0] o IH]; intros Hnd; [reflexivity|].
  inversion Hnd as [|? ? Hnotin Hnd']; subst. simpl.
  assert (E : forall r, get (r ++ [(k0, v0)]) k
                        = match get r k with
                          | Some v => Some v
                          | None => if String.eqb k0 k then Some v0 else None
                          end).
  { induction r as [|[k1 v1] r IHr]; simpl; [reflexivity|].
    destruct (String.eqb k1 k); [reflexivity | exact IHr]. }
  rewrite E, (IH Hnd').
  destruct (String.eqb_spec k0 k) as [->|Hne]; [|now destruct (get o k)].
  assert (Hn : get o k = None).
  { apply has_false_get. destruct (has o k) eqn:Hh; [|reflexivity].
    apply has_keys in Hh. contradiction. }
  now rewrite Hn.
Qed.

(** The keys of a spread are those of its two arguments. *)
Lemma has_spread2 (a b : JsObject.t V) k :
  has (spread2 a b) k = has a k || has b k.
Proof.
  unfold spread2, entries, has at 1. rewrite get_fold_set. simpl.
  rewrite rev_app_distr.
  assert (E : forall (x y : JsObject.t V),
             get (x ++ y) k = match get x k with Some v => Some v | None => get y k end).
  { intros x y. induction x as [|[k1 v1] x IHx]; simpl; [reflexivity|].
    destruct (String.eqb k1 k); [reflexivity | exact IHx]. }
  rewrite E. rewrite <- (has_rev a k), <- (has_rev b k). unfold has.
  destruct (get (rev b) k); [now rewrite orb_true_r|].
  now destruct (get (rev a) k).
Qed.

(** In a spread the second argument shadows the first. *)
Lemma get_spread2 (a b : JsObject.t V) k :
  NoDup (keys a) -> NoDup (keys b) ->
  get (spread2 a b) k = match get b k with Some v => Some v | None => get a k end.
Proof.
  intros Ha Hb. unfold spread2, entries. rewrite get_fold_set. simpl.
  rewrite rev_app_distr.
  assert (E : forall (x y : JsObject.t V),
             get (x ++ y) k = match get x k with Some v => Some v | None => get y k end).
  { intros x y. induction x as [|[k1 v1] x IHx]; simpl; [reflexivity|].
    destruct (String.eqb k1 k); [reflexivity | exact IHx]. }
  rewrite E, (get_rev_NoDup _ _ Ha), (get_rev_NoDup _ _ Hb).
  destruct (get b k); [reflexivity|]. now destruct (get a k).
Qed.

(** An assignment followed by a read of an own property. *)
Lemma get_assign o k v k' :
  get (assign k v o) k'
  = if String.eqb k "__proto__" && negb (has o k) then get o k'
    else if String.eqb k k' then Some v else get o k'.
Proof.
  unfold assign. destruct (String.eqb k "__proto__" && negb (has o k)); [reflexivity|].
  apply get_set.
Qed.

Lemma get_assign_plain o k v k' :
  k <> "__proto__" ->
  get (assign k v o) k' = if String.eqb k k' then Some v else get o k'.
Proof.
  intros Hk. rewrite get_assign.
  now destruct (String.eqb_spec k "__proto__").
Qed.

Lemma has_assign o k v k' :
  has (assign k v o) k'
  = if String.eqb k "__proto__" && negb (has o k) then has o k'
    else String.eqb k k' || has o k'.
Proof.
  unfold has at 1. rewrite get_assign. fold (has o k').
  destruct (String.eqb k "__proto__" && negb (has o k)); [reflexivity|].
  unfold has. now destruct (String.eqb k k').
Qed.

(** An own property is what a lookup reads. *)
Lemma read_own o k v : get o k = Some v -> read o k = Some (own v).
Proof. unfold read. now intros ->. Qed.

(** What a lookup reads is an own property or, when there is none, the
    member of [Object.prototype] of that name. *)
Lemma read_cases o k (m : member V) :
  read o k = Some m ->
  (exists v, m = own v /\ get o k = Some v)
  \/ (m = inherited k /\ get o k = None /\ isObjectPrototypeName k = true).
Proof.
  unfold read. destruct (get o k) as [v|].
  - intros [= <-]. left. now exists v.
  - destruct (isObjectPrototypeName k); [|discriminate].
    intros [= <-]. right. auto.
Qed.

(** Apart from the names of [Object.prototype] a lookup reads own
    properties only. *)
Lemma read_plain o k :
  isObjectPrototypeName k = false -> read o k = option_map own (get o k).
Proof. unfold read. intros ->. now destruct (get o k). Qed.

Lemma read_None o k : read o k = None -> get o k = None.
Proof. unfold read. now destruct (get o k). Qed.

End Facts.

End ObjectFacts.

(** ** The seeds *)

Module SeedFacts.
Import JsObject FilfoxVerifier Spec.

Lemma hasRemappedVersion_false (resolver : ImportResolver) (k : string) :
  hasRemappedVersion resolver k = false
  <-> forall mapping,
        In mapping (remappings resolver) ->
        JsString.startsWith k (resolved mapping) = true ->
        ~ In (JsString.replace k (resolved mapping) (original mapping))
            (keys (remappedSourceFiles resolver)).
Proof.
  unfold hasRemappedVersion. split.
  - intros H m Hm Hs Hin.
    assert (E : existsb
                  (fun remappedPath =>
                     existsb
                       (fun mapping =>
                          JsString.startsWith k (resolved mapping)
                          && String.eqb remappedPath
                               (JsString.replace k (resolved mapping) (original mapping)))
                       (remappings resolver))
                  (keys (remappedSourceFiles resolver)) = true); [|congruence].
    apply existsb_exists. eexists. split; [exact Hin|].
    apply existsb_exists. exists m. split; [exact Hm|].
    now rewrite Hs, String.eqb_refl.
  - intros H. apply not_true_iff_false. intros E.
    apply existsb_exists in E as [a [Ha E]].
    apply existsb_exists in E as [m [Hm E]].
    apply andb_true_iff in E as [Hs E]. apply String.eqb_eq in E. subst a.
    exact (H m Hm Hs Ha).
Qed.

(** The queue before the loop holds the seeds. *)
Lemma initialQueue_seed (resolver : ImportResolver) (k : string) :
  In k (initialQueue resolver) <-> seed resolver k.
Proof.
  unfold initialQueue, seed. rewrite in_app_iff, filter_In, negb_true_iff.
  now rewrite hasRemappedVersion_false.
Qed.

End SeedFacts.

(** ** resolveImportPath *)

Module ResolveFacts.
Import JsObject FilfoxVerifier Spec.

Ltac break_match :=
  match goal with
  | |- context [match ?x with _ => _ end] => destruct x eqn:?
  | H : context [match ?x with _ => _ end] |- _ => destruct x eqn:?
  end.

(** The first entry whose key passes a test is the entry the object holds
    at that key. *)
Lemma find_by_key_get {V : Type} (test : string -> bool) (o : JsObject.t V)
  (p : string) (v : V) :
  find (fun entry => test (fst entry)) o = Some (p, v) -> get o p = Some v.
Proof.
  induction o as [|[k0 v0] o IH]; simpl; [discriminate|].
  destruct (test k0) eqn:Hk.
  - intros H. inversion H; subst. now rewrite String.eqb_refl.
  - intros H. destruct (String.eqb_spec k0 p) as [->|Hne].
    + apply find_some in H as [_ H]. simpl in H. congruence.
    + now apply IH.
Qed.

(** A resolved import is what the available files hold at the resolved
    path. *)
Lemma resolveImportPath_available
  (importPath currentFile : string) (remappings : list Remapping)
  (availableFiles : JsObject.t SourceFile) (p : string) (c : stored) :
  fst (resolveImportPath importPath currentFile remappings availableFiles) = Some (p, c) ->
  read availableFiles p = Some c.
Proof.
  unfold resolveImportPath. intros H.
  repeat break_match; simpl in H; try discriminate;
    repeat match goal with
      | E : Some _ = Some _ |- _ => inversion E; subst; clear E
      | E : (_, _) = (_, _) |- _ => inversion E; subst; clear E
      end;
    try assumption.
  all: match goal with
       | E : find _ _ = Some _ |- _ => rename E into Hfind
       end.
  all: apply (find_by_key_get
                (fun k => String.eqb (Path.basename k) (Path.basename importPath)
                          && pathContextMatches importPath k)) in Hfind.
  all: unfold entries in Hfind; unfold read; rewrite Hfind; reflexivity.
Qed.

(** A call either resolves and writes nothing, or answers [null] after
    one warning that names the import and the current file. *)
Lemma resolveImportPath_cases
  (importPath currentFile : string) (remappings : list Remapping)
  (availableFiles : JsObject.t SourceFile) :
  (exists p c, resolveImportPath importPath currentFile remappings availableFiles
               = (Some (p, c), []))
  \/ resolveImportPath importPath currentFile remappings availableFiles
     = (None, [warn_unresolved importPath currentFile]).
Proof.
  unfold resolveImportPath.
  repeat break_match; try discriminate;
    try (left;
         repeat match goal with
           | q : (string * _)%type |- _ => destruct q
           end;
         eauto; fail);
    right; reflexivity.
Qed.

(** A member of [Object.prototype] has no imports. *)
Lemma importsOf_inherited (name : string) : importsOf (inherited name) = [].
Proof. vm_compute. reflexivity. Qed.

End ResolveFacts.

(** ** The traversal *)

Module ClosureFacts.
Import JsObject FilfoxVerifier Spec.

#[local] Set Warnings "-notation-for-abbreviation".

Section Traversal.

Variable resolver : ImportResolver.

Notation all := (allAvailableFiles resolver).
Notation resolve i f := (resolveImportPath i f (remappings resolver) all).

(** *** The loop over the imports of one file *)

Lemma enqueueImport_spec
  (currentFile : string) (done : list string)
  (q : list string) (c : list console_event) (i : string) :
  let r := enqueueImport resolver all currentFile done (q, c) i in
  (forall k, In k (fst r)
             <-> In k q \/ exists x, fst (resolve i currentFile) = Some (k, x)
                                     /\ JsString.mem k done = false)
  /\ snd r = c ++ snd (resolve i currentFile)
  /\ List.length (fst r) <= S (List.length q).
Proof.
  unfold enqueueImport.
  destruct (resolve i currentFile) as [[[p x]|] out]; simpl.
  - destruct (JsString.mem p done) eqn:Hp; simpl.
    + split; [|split; [reflexivity | lia]].
      intros k. split; [tauto|]. intros [H|[y [[= <- <-] Hk]]]; [assumption | congruence].
    + split; [|split; [reflexivity | rewrite length_app; simpl; lia]].
      intros k. rewrite in_app_iff. simpl. split.
      * intros [H|[<-|[]]]; [tauto|]. right. now exists x.
      * intros [H|[y [[= <- <-] Hk]]]; tauto.
  - split; [|split; [reflexivity | lia]].
    intros k. split; [tauto|]. intros [H|[y [[=] _]]]. assumption.
Qed.

Lemma enqueue_fold
  (currentFile : string) (done : list string) (imports : list string)
  (q : list string) (c : list console_event) :
  let r := fold_left (enqueueImport resolver all currentFile done) imports (q, c) in
  (forall k, In k (fst r)
             <-> In k q \/ exists i x, In i imports
                                       /\ fst (resolve i currentFile) = Some (k, x)
                                       /\ JsString.mem k done = false)
  /\ (forall ev, In ev (snd r)
                 <-> In ev c \/ exists i, In i imports
                                          /\ In ev (snd (resolve i currentFile)))
  /\ List.length (fst r) <= List.length q + List.length imports.
Proof.
  revert q c. induction imports as [|i imports IH]; intros q c; cbv zeta;
    cbn [fold_left List.length fst snd].
  - split; [|split; [|lia]].
    + intros k. split; [tauto|]. intros [H|[i [x [[] _]]]]. assumption.
    + intros ev. split; [tauto|]. intros [H|[i [[] _]]]. assumption.
  - destruct (enqueueImport_spec currentFile done q c i) as [Hq [Hc Hl]].
    destruct (enqueueImport resolver all currentFile done (q, c) i) as [q1 c1].
    simpl in Hq, Hc, Hl.
    destruct (IH q1 c1) as [IHq [IHc IHl]]. cbv zeta in *.
    split; [|split; [|lia]].
    + intros k. rewrite IHq, Hq. split.
      * intros [[H|[x [Hx Hk]]]|[j [x [Hj H]]]]; [tauto| |].
        -- right. exists i, x. simpl; tauto.
        -- right. exists j, x. simpl; tauto.
      * intros [H|[j [x [[<-|Hj] H]]]]; [tauto| |].
        -- left. right. exists x. simpl; tauto.
        -- right. exists j, x. simpl; tauto.
    + intros ev. rewrite IHc, Hc, in_app_iff. split.
      * intros [[H|H]|[j [Hj H]]]; [tauto| |].
        -- right. exists i. simpl; tauto.
        -- right. exists j. simpl; tauto.
      * intros [H|[j [[<-|Hj] H]]]; [tauto|simpl; tauto|].
        right. exists j. simpl; tauto.
Qed.

(** *** Termination *)

Lemma workOf_mono (o : JsObject.t SourceFile) (done : list string) (k : string) :
  workOf o (done ++ [k]) <= workOf o done.
Proof.
  unfold workOf, list_sum.
  induction o as [|[k0 v0] o IH]; cbn [map fold_right fst snd]; [lia|].
  rewrite StringFacts.mem_app. destruct (JsString.mem k0 done); cbn [orb]; [lia|].
  unfold JsString.mem at 1. cbn [existsb]. rewrite orb_false_r, String.eqb_sym.
  destruct (String.eqb k k0); lia.
Qed.

Lemma workOf_visit (o : JsObject.t SourceFile) (done : list string) (k : string)
  (file : SourceFile) :
  JsString.mem k done = false -> get o k = Some file ->
  workOf o (done ++ [k]) + 2 + List.length (extractImports (content file))
  <= workOf o done.
Proof.
  intros Hk. unfold workOf, list_sum.
  induction o as [|[k0 v0] o IH]; cbn [map fold_right fst snd get]; [discriminate|].
  rewrite StringFacts.mem_app. unfold JsString.mem at 2. cbn [existsb].
  rewrite orb_false_r, (String.eqb_sym k0 k).
  destruct (String.eqb_spec k k0) as [<-|Hne].
  - intros [= ->]. rewrite Hk. cbn [orb].
    pose proof (workOf_mono o done k) as Hm. unfold workOf, list_sum in Hm. lia.
  - intros Hget. specialize (IH Hget).
    destruct (JsString.mem k0 done); cbn [orb]; lia.
Qed.

(** What a path not yet processed adds to the queue is paid for by the
    work its visit removes. *)
Lemma workOf_read (done : list string) (k : string) (file : stored) :
  JsString.mem k done = false -> read all k = Some file ->
  workOf all (done ++ [k]) + List.length (importsOf file) <= workOf all done.
Proof.
  intros Hk Hread. apply ObjectFacts.read_cases in Hread.
  destruct Hread as [[v [-> Hget]]|[-> _]].
  - pose proof (workOf_visit all done k v Hk Hget). simpl. lia.
  - rewrite ResolveFacts.importsOf_inherited. simpl.
    pose proof (workOf_mono all done k). lia.
Qed.

(** A turn of the loop leaves less work. *)
Lemma visit_work (currentFile : string) (rest : list string) (st : state) :
  queue st = currentFile :: rest ->
  work all (visit resolver all currentFile rest st) < work all st.
Proof.
  intros Hq. unfold work, visit. rewrite Hq.
  destruct (JsString.mem currentFile (processed st)) eqn:Hdone; simpl; [lia|].
  destruct (read all currentFile) as [file|] eqn:Hread; simpl.
  - pose proof (enqueue_fold currentFile (processed st ++ [currentFile])
                  (importsOf file) rest (console st)) as [_ [_ Hl]].
    destruct (fold_left _ (importsOf file) (rest, console st)) as [q' c'].
    simpl in *.
    pose proof (workOf_read (processed st) currentFile file Hdone Hread). lia.
  - pose proof (workOf_mono all (processed st) currentFile). lia.
Qed.

(** With fuel for the work left the loop runs until the queue is empty. *)
Lemma loop_total (fuel : nat) (st : state) :
  work all st <= fuel -> exists st', loop fuel resolver all st = Some st'.
Proof.
  revert st. induction fuel as [|fuel IH]; intros st Hw.
  - destruct (queue st) as [|k rest] eqn:Hq.
    + exists st. simpl. now rewrite Hq.
    + unfold work in Hw. rewrite Hq in Hw. simpl in Hw. lia.
  - simpl. destruct (queue st) as [|k rest] eqn:Hq; [now exists st|].
    apply IH. pose proof (visit_work k rest st Hq). lia.
Qed.

(** *** The invariant *)

Lemma invariant_initial : invariant resolver (initialState resolver).
Proof.
  constructor; simpl.
  - intros k [H|[]]. now apply reach_seed, SeedFacts.initialQueue_seed.
  - reflexivity.
  - intros f p [].
  - intros k H. now right.
  - intros f file i ev [].
Qed.

Lemma invariant_visit (currentFile : string) (rest : list string) (st : state) :
  queue st = currentFile :: rest ->
  invariant resolver st -> invariant resolver (visit resolver all currentFile rest st).
Proof.
  intros Hq [Hreach Hfiles Hclosed Hseeds Hconsole].
  rewrite Hq in *.
  assert (Hcur : Reachable resolver currentFile) by (apply Hreach; left; now left).
  unfold visit.
  destruct (JsString.mem currentFile (processed st)) eqn:Hdone.
  - (* already processed *)
    apply StringFacts.mem_In in Hdone.
    constructor; simpl.
    + intros k [H|H]; apply Hreach; [left; now right | now right].
    + exact Hfiles.
    + intros f p Hf Hr. destruct (Hclosed f p Hf Hr) as [H|[<-|H]]; auto.
    + intros k Hk. destruct (Hseeds k Hk) as [H|[<-|H]]; auto.
    + exact Hconsole.
  - assert (Hnew : forall k, JsString.mem k (processed st ++ [currentFile])
                             = JsString.mem k (processed st) || String.eqb k currentFile).
    { intros k. rewrite StringFacts.mem_app. unfold JsString.mem at 2. simpl.
      now rewrite orb_false_r. }
    destruct (read all currentFile) as [file|] eqn:Hget.
    + (* a path at which the available files hold something *)
      pose proof (enqueue_fold currentFile (processed st ++ [currentFile])
                    (importsOf file) rest (console st)) as [Hq' [Hc' _]].
      destruct (fold_left _ (importsOf file) (rest, console st)) as [q' c'].
      simpl in Hq', Hc'.
      constructor; simpl.
      * intros k [H|H].
        -- apply Hq' in H. destruct H as [H|[i [x [Hi [Hres _]]]]].
           ++ apply Hreach. left. now right.
           ++ apply reach_import with currentFile; [assumption|].
              exists file, i, x. auto.
        -- apply in_app_iff in H. destruct H as [H|[<-|[]]]; [|assumption].
           apply Hreach. now right.
      * intros k. rewrite ObjectFacts.get_assign, Hnew, !Hfiles.
        assert (Hnone : has (necessaryFiles st) currentFile = false).
        { apply ObjectFacts.has_false_get. now rewrite Hfiles, Hdone. }
        rewrite Hnone. cbn [negb]. rewrite andb_true_r.
        rewrite (String.eqb_sym k currentFile).
        destruct (String.eqb_spec currentFile "__proto__") as [Hp|Hp].
        -- destruct (String.eqb_spec currentFile k) as [<-|Hne].
           ++ rewrite Hdone, Hp. reflexivity.
           ++ now rewrite orb_false_r.
        -- destruct (String.eqb_spec currentFile k) as [<-|Hne].
           ++ rewrite orb_true_r.
              destruct (String.eqb_spec currentFile "__proto__"); [contradiction|].
              now rewrite Hget.
           ++ now rewrite orb_false_r.
      * intros f p Hf Hr. apply in_app_iff in Hf. destruct Hf as [Hf|[<-|[]]].
        -- destruct (Hclosed f p Hf Hr) as [H|[<-|H]].
           ++ left. apply in_app_iff. now left.
           ++ left. apply in_app_iff. right. now left.
           ++ right. apply Hq'. now left.
        -- destruct Hr as [file' [i [x [Hget' [Hi Hres]]]]].
           rewrite Hget in Hget'. injection Hget' as <-.
           destruct (JsString.mem p (processed st ++ [currentFile])) eqn:Hp.
           ++ left. now apply StringFacts.mem_In.
           ++ right. apply Hq'. right. exists i, x. auto.
      * intros k Hk. destruct (Hseeds k Hk) as [H|[<-|H]].
        -- left. apply in_app_iff. now left.
        -- left. apply in_app_iff. right. now left.
        -- right. apply Hq'. now left.
      * intros f file' i ev Hf Hget' Hi Hev. apply Hc'.
        apply in_app_iff in Hf. destruct Hf as [Hf|[<-|[]]].
        -- left. eapply Hconsole; eassumption.
        -- rewrite Hget in Hget'. injection Hget' as <-.
           right. exists i. auto.
    + (* a path at which they hold nothing *)
      constructor; simpl.
      * intros k [H|H].
        -- apply Hreach. left. now right.
        -- apply in_app_iff in H. destruct H as [H|[<-|[]]]; [|assumption].
           apply Hreach. now right.
      * intros k. rewrite Hnew, Hfiles.
        destruct (String.eqb_spec k currentFile) as [->|Hne].
        -- rewrite Hdone, Hget. cbn [orb]. now destruct (negb _).
        -- now rewrite orb_false_r.
      * intros f p Hf Hr. apply in_app_iff in Hf. destruct Hf as [Hf|[<-|[]]].
        -- destruct (Hclosed f p Hf Hr) as [H|[<-|H]].
           ++ left. apply in_app_iff. now left.
           ++ left. apply in_app_iff. right. now left.
           ++ now right.
        -- destruct Hr as [file' [i [x [Hget' _]]]]. congruence.
      * intros k Hk. destruct (Hseeds k Hk) as [H|[<-|H]].
        -- left. apply in_app_iff. now left.
        -- left. apply in_app_iff. right. now left.
        -- now right.
      * intros f file' i ev Hf Hget' Hi Hev.
        apply in_app_iff in Hf. destruct Hf as [Hf|[<-|[]]].
        -- eapply Hconsole; eassumption.
        -- congruence.
Qed.

Lemma invariant_loop (fuel : nat) (st st' : state) :
  invariant resolver st -> loop fuel resolver all st = Some st' ->
  invariant resolver st' /\ queue st' = [].
Proof.
  revert st. induction fuel as [|fuel IH]; intros st Hinv Hloop; simpl in Hloop.
  - destruct (queue st) eqn:Hq; [|discriminate].
    injection Hloop as <-. auto.
  - destruct (queue st) as [|k rest] eqn:Hq.
    + injection Hloop as <-. auto.
    + eapply IH; [|exact Hloop]. now apply invariant_visit.
Qed.

(** When the queue is empty the processed paths are the reachable ones. *)
Lemma invariant_final (st : state) (k : string) :
  invariant resolver st -> queue st = [] ->
  (Reachable resolver k <-> In k (processed st)).
Proof.
  intros [Hreach _ Hclosed Hseeds _] Hq. rewrite Hq in *. split.
  - induction 1 as [k Hk | f p _ IH Hr].
    + apply SeedFacts.initialQueue_seed in Hk.
      destruct (Hseeds k Hk) as [H|[]]. assumption.
    + destruct (Hclosed f p IH Hr) as [H|[]]. assumption.
  - intros H. apply Hreach. now right.
Qed.

End Traversal.

End ClosureFacts.

Module ClosureResults.
Import JsObject FilfoxVerifier Spec ClosureFacts.

Lemma initialQueue_available (resolver : ImportResolver) (k : string) :
  In k (initialQueue resolver) -> has (allAvailableFiles resolver) k = true.
Proof.
  unfold initialQueue, allAvailableFiles. rewrite in_app_iff, ObjectFacts.has_spread2.
  intros [H|H]; apply orb_true_iff.
  - right. now apply ObjectFacts.has_keys.
  - left. apply filter_In in H as [H _]. now apply ObjectFacts.has_keys.
Qed.

(** At a reachable path the available files hold something: a file, or a
    member inherited from [Object.prototype]. *)
Lemma Reachable_available (resolver : ImportResolver) (k : string) :
  Reachable resolver k -> exists file, read (allAvailableFiles resolver) k = Some file.
Proof.
  intros [k' Hk | f p _ [file [i [x [_ [_ Hres]]]]]].
  - apply SeedFacts.initialQueue_seed, initialQueue_available, ObjectFacts.has_get in Hk.
    destruct Hk as [v Hv].
    exists (own v). now apply ObjectFacts.read_own.
  - exists x. eapply ResolveFacts.resolveImportPath_available. exact Hres.
Qed.

(** The call returns, and what it returns is what the available files hold
    at the reachable paths, [__proto__] apart; the imports of what is
    returned either resolve to reachable paths or are reported on the
    console. *)
Lemma traversal_result (resolver : ImportResolver) :
  exists necessary out,
    resolveNecessaryImports resolver = Some (necessary, out)
    /\ (forall k, Reachable resolver k -> k <> "__proto__" ->
                  get necessary k = read (allAvailableFiles resolver) k)
    /\ (forall k v, get necessary k = Some v ->
                    Reachable resolver k /\ k <> "__proto__"
                    /\ read (allAvailableFiles resolver) k = Some v)
    /\ (forall f file i ev,
          get necessary f = Some file ->
          In i (importsOf file) ->
          In ev (snd (resolveImportPath i f (remappings resolver)
                        (allAvailableFiles resolver))) ->
          In ev out)
    /\ (forall f file i p c,
          get necessary f = Some file ->
          In i (importsOf file) ->
          fst (resolveImportPath i f (remappings resolver)
                 (allAvailableFiles resolver)) = Some (p, c) ->
          Reachable resolver p /\ (p <> "__proto__" -> get necessary p = Some c)).
Proof.
  unfold resolveNecessaryImports.
  destruct (loop_total resolver
              (work (allAvailableFiles resolver) (initialState resolver))
              (initialState resolver) (le_n _)) as [st Hloop].
  rewrite Hloop. exists (necessaryFiles st), (console st).
  destruct (invariant_loop resolver _ _ _ (invariant_initial resolver) Hloop)
    as [Hinv Hq].
  pose proof (fun k => invariant_final resolver st k Hinv Hq) as Hfinal.
  destruct Hinv as [_ Hfiles Hclosed _ Hconsole].
  assert (Hin : forall f file, get (necessaryFiles st) f = Some file ->
                               In f (processed st) /\ f <> "__proto__"
                               /\ read (allAvailableFiles resolver) f = Some file).
  { intros f file H. rewrite Hfiles in H.
    destruct (JsString.mem f (processed st)) eqn:Hf; [|discriminate].
    destruct (String.eqb_spec f "__proto__") as [Hp|Hp]; [discriminate|].
    split; [now apply StringFacts.mem_In | auto]. }
  assert (Hout : forall k, In k (processed st) -> k <> "__proto__" ->
                           get (necessaryFiles st) k
                           = read (allAvailableFiles resolver) k).
  { intros k Hk Hp. apply StringFacts.mem_In in Hk. rewrite Hfiles, Hk.
    now destruct (String.eqb_spec k "__proto__"). }
  split; [reflexivity|]. split; [|split; [|split]].
  - intros k Hk Hp. apply Hout; [now apply Hfinal | assumption].
  - intros k v Hk. destruct (Hin k v Hk) as [H1 [H2 H3]].
    split; [now apply Hfinal | auto].
  - intros f file i ev Hf Hi Hev. destruct (Hin f file Hf) as [Hp [_ Hget]].
    eapply Hconsole; eassumption.
  - intros f file i p c Hf Hi Hres. destruct (Hin f file Hf) as [Hp [_ Hget]].
    assert (Hr : resolvesTo resolver f p) by (exists file, i, c; auto).
    destruct (Hclosed f p Hp Hr) as [H|H]; [|rewrite Hq in H; destruct H].
    split; [now apply Hfinal|]. intros Hne. rewrite (Hout p H Hne).
    eapply ResolveFacts.resolveImportPath_available. exact Hres.
Qed.

End ClosureResults.

(** ** The closure *)

Module ClosureClaims.
Import JsObject FilfoxVerifier Spec ClosureResults.

Lemma no_remapped_seeds (resolver : ImportResolver) :
  remappedSourceFiles resolver = [] ->
  initialQueue resolver = keys (sourceFiles resolver).
Proof.
  intros H. unfold initialQueue, hasRemappedVersion. rewrite H. simpl.
  induction (keys (sourceFiles resolver)) as [|k l IH]; [reflexivity|].
  simpl. now rewrite IH.
Qed.

(** C1, as the code has it.  The call returns, and a path other than
    [__proto__] is a key of the result exactly when it is reachable: it is
    a seed (a remapped path, or an original path with no remapped version)
    or an import of something reachable resolves to it.  Seeds need no
    import: every seed other than [__proto__] is a key of the result; for
    A, B and C with no remappings the result has the three keys; and
    whenever there is no remapped file the result and the source files
    have the same keys, the names of [Object.prototype] apart.  What is
    left out is an original path that has a remapped version and that no
    import resolves to: with the rule "@lib/=lib/token/" the file at
    "lib/token/Token.sol" is no key of the result. *)
Theorem closure_is_reachable_part (resolver : ImportResolver) :
  (exists necessary out,
      resolveNecessaryImports resolver = Some (necessary, out)
      /\ (forall k, k <> "__proto__" ->
                    (has necessary k = true <-> Reachable resolver k))
      /\ (forall k, k <> "__proto__" -> seed resolver k -> has necessary k = true)
      /\ (remappedSourceFiles resolver = [] ->
          forall k, isObjectPrototypeName k = false ->
                    has necessary k = has (sourceFiles resolver) k))
  /\ (exists out,
         resolveNecessaryImports Examples.abcResolver
         = Some (Examples.storedFiles Examples.abcFiles, out)
         /\ keys (Examples.storedFiles Examples.abcFiles)
            = ["A.sol"; "B.sol"; "C.sol"])
  /\ (exists necessary out,
         resolveNecessaryImports Examples.tokenResolver = Some (necessary, out)
         /\ keys necessary = ["@lib/Token.sol"; "Main.sol"]
         /\ has (allAvailableFiles Examples.tokenResolver) "lib/token/Token.sol" = true).
Proof.
  split; [|split; [exists []; split; vm_compute; reflexivity|]].
  2: { do 2 eexists. split; [vm_compute; reflexivity|]. split; vm_compute; reflexivity. }
  destruct (traversal_result resolver) as [necessary [out [Hres [Hin [Hout _]]]]].
  exists necessary, out. split; [exact Hres|].
  assert (Hiff : forall k, k <> "__proto__" ->
                           (has necessary k = true <-> Reachable resolver k)).
  { intros k Hp. split.
    - intros H. apply ObjectFacts.has_get in H as [v Hv]. now apply (Hout k v).
    - intros H. unfold has. rewrite (Hin k H Hp).
      apply Reachable_available in H as [file ->]. reflexivity. }
  split; [exact Hiff|]. split.
  - intros k Hp Hs. apply Hiff; [assumption|]. now apply reach_seed.
  - intros Hnone k Hk.
    assert (Hp : k <> "__proto__") by (intros ->; discriminate Hk).
    assert (Hall : has (allAvailableFiles resolver) k = has (sourceFiles resolver) k).
    { unfold allAvailableFiles. rewrite ObjectFacts.has_spread2, Hnone. simpl.
      apply orb_false_r. }
    destruct (has (sourceFiles resolver) k) eqn:Hs.
    + apply Hiff; [assumption|]. apply reach_seed, SeedFacts.initialQueue_seed.
      rewrite (no_remapped_seeds _ Hnone). now apply ObjectFacts.has_keys.
    + destruct (has necessary k) eqn:Hn; [|reflexivity].
      apply Hiff in Hn; [|assumption].
      apply Reachable_available in Hn as [file Hread].
      rewrite (ObjectFacts.read_plain _ _ Hk) in Hread.
      apply ObjectFacts.has_false_get in Hall. rewrite Hall in Hread. discriminate.
Qed.

Lemma closure_is_reachable_part_witness :
  exists necessary out,
    resolveNecessaryImports Examples.abcResolver = Some (necessary, out)
    /\ (forall k, k <> "__proto__" ->
                  (has necessary k = true <-> Reachable Examples.abcResolver k))
    /\ (forall k, isObjectPrototypeName k = false ->
                  has necessary k = has Examples.abcFiles k).
Proof.
  destruct (proj1 (closure_is_reachable_part Examples.abcResolver))
    as [necessary [out [H1 [H2 [_ H3]]]]].
  exists necessary, out. split; [exact H1|]. split; [exact H2|].
  apply H3. reflexivity.
Defined.

(** C1, as the specification has it, fails on its own example: the result
    for A, B and C has the key C.sol as well. *)
Lemma closure_of_abc_includes_C : ~ Claimed.closureOfAbcIsAB.
Proof.
  intros [necessary [out [Hres Hkeys]]].
  assert (E : resolveNecessaryImports Examples.abcResolver
              = Some (Examples.storedFiles Examples.abcFiles, []))
    by (vm_compute; reflexivity).
  rewrite E in Hres. injection Hres as <- <-.
  destruct (proj1 (Hkeys "C.sol")) as [H|H]; [reflexivity | discriminate | discriminate].
Qed.

(** With files at the three paths of the Token scenario, when the seeds are
    Main.sol and "@lib/Token.sol" and no import of what the available files
    hold at these two paths resolves to "lib/token/Token.sol", that path is
    not reachable. *)
Lemma token_path_unreachable
  (resolver : ImportResolver) (textOfMain textAtResolved : string) :
  (forall k, In k (initialQueue resolver) -> k = "Main.sol" \/ k = "@lib/Token.sol") ->
  (forall f v, get (allAvailableFiles resolver) f = Some v ->
               (f = "Main.sol" /\ v = mkSourceFile textOfMain)
               \/ (f = "@lib/Token.sol" /\ v = mkSourceFile textAtResolved)
               \/ f = "lib/token/Token.sol") ->
  (forall f text i c,
      (f = "Main.sol" /\ text = textOfMain)
      \/ (f = "@lib/Token.sol" /\ text = textAtResolved) ->
      In i (extractImports text) ->
      fst (resolveImportPath i f (remappings resolver) (allAvailableFiles resolver))
      <> Some ("lib/token/Token.sol", c)) ->
  forall k, Reachable resolver k -> k <> "lib/token/Token.sol".
Proof.
  intros Hq Hall H k Hk.
  induction Hk as [k Hs | f p Hf IH [file [i [c [Hread [Hi Hres]]]]]].
  - apply SeedFacts.initialQueue_seed, Hq in Hs. destruct Hs as [->| ->]; discriminate.
  - intros ->. apply ObjectFacts.read_cases in Hread.
    destruct Hread as [[v [-> Hget]]|[-> _]].
    + simpl in Hi. destruct (Hall f v Hget) as [[-> ->]|[[-> ->]| ->]].
      * exact (H "Main.sol" textOfMain i c (or_introl (conj eq_refl eq_refl)) Hi Hres).
      * exact (H "@lib/Token.sol" textAtResolved i c
                 (or_intror (conj eq_refl eq_refl)) Hi Hres).
      * now apply IH.
    + rewrite ResolveFacts.importsOf_inherited in Hi. destruct Hi.
Qed.

(** C2, as the code has it.  With the rule "@lib/=lib/token/" and a file
    at each of the paths Main.sol, "@lib/Token.sol" and
    "lib/token/Token.sol", whatever the three texts and in whatever order the
    object lists the files: the file at "lib/token/Token.sol" gets the
    remapped path "@lib/Token.sol"; the result holds Main.sol, and at
    "@lib/Token.sol" the text of the file given at "lib/token/Token.sol";
    it has no entry at "lib/token/Token.sol", provided that no import of
    these two texts resolves to that very path. *)
Theorem token_keyed_at_original_prefix
  (textOfMain textAtOriginal textAtResolved : string)
  (sources : JsObject.t SourceFile) :
  In sources (Examples.tokenFileOrders textOfMain textAtOriginal textAtResolved) ->
  let resolver := Notions.resolverOf sources Examples.tokenRemappings in
  (forall f text i c,
      (f = "Main.sol" /\ text = textOfMain)
      \/ (f = "@lib/Token.sol" /\ text = textAtResolved) ->
      In i (extractImports text) ->
      fst (resolveImportPath i f (remappings resolver) (allAvailableFiles resolver))
      <> Some ("lib/token/Token.sol", c)) ->
  parseRemappings Examples.tokenRules = Return Examples.tokenRemappings
  /\ keys (remappedSourceFiles resolver) = ["@lib/Token.sol"]
  /\ exists necessary out,
      resolveNecessaryImports resolver = Some (necessary, out)
      /\ get necessary "Main.sol" = Some (own (mkSourceFile textOfMain))
      /\ get necessary "@lib/Token.sol" = Some (own (mkSourceFile textAtResolved))
      /\ get sources "lib/token/Token.sol" = Some (mkSourceFile textAtResolved)
      /\ get necessary "lib/token/Token.sol" = None
      /\ forall k, has necessary k = true ->
                   k = "Main.sol" \/ k = "@lib/Token.sol"
                   \/ isObjectPrototypeName k = true.
Proof.
  intros Horder resolver Himports.
  split; [reflexivity|].
  destruct (traversal_result resolver) as [necessary [out [Hres [Hin [Hout _]]]]].
  assert (Hun : forall k, Reachable resolver k -> k <> "lib/token/Token.sol").
  { apply token_path_unreachable with textOfMain textAtResolved;
      [| |exact Himports].
    - intros k Hk. unfold Examples.tokenFileOrders in Horder. simpl in Horder.
      destruct Horder as [E|[E|[E|[E|[E|[E|[]]]]]]]; subst sources;
        vm_compute in Hk; intuition.
    - intros f v Hget. unfold Examples.tokenFileOrders in Horder. simpl in Horder.
      remember (allAvailableFiles resolver) as available eqn:Ea.
      destruct Horder as [E|[E|[E|[E|[E|[E|[]]]]]]]; subst sources;
        vm_compute in Ea; subst available; cbn [get] in Hget;
        repeat match type of Hget with
          | context [String.eqb ?a f] =>
              destruct (String.eqb_spec a f);
              [subst f; inversion Hget; subst; tauto|]
          end;
        discriminate Hget. }
  assert (Hseed : forall k, k = "Main.sol" \/ k = "@lib/Token.sol" ->
                            get necessary k = read (allAvailableFiles resolver) k).
  { intros k Hk. apply Hin; [|destruct Hk as [->| ->]; discriminate].
    apply reach_seed, SeedFacts.initialQueue_seed.
    unfold Examples.tokenFileOrders in Horder. simpl in Horder.
    destruct Horder as [E|[E|[E|[E|[E|[E|[]]]]]]]; subst sources;
      destruct Hk as [->| ->]; vm_compute; tauto. }
  unfold Examples.tokenFileOrders in Horder. simpl in Horder.
  split.
  { destruct Horder as [E|[E|[E|[E|[E|[E|[]]]]]]]; subst sources;
      vm_compute; reflexivity. }
  exists necessary, out. split; [exact Hres|].
  split; [|split; [|split; [|split]]].
  - rewrite (Hseed "Main.sol" (or_introl eq_refl)).
    destruct Horder as [E|[E|[E|[E|[E|[E|[]]]]]]]; subst sources;
      vm_compute; reflexivity.
  - rewrite (Hseed "@lib/Token.sol" (or_intror eq_refl)).
    destruct Horder as [E|[E|[E|[E|[E|[E|[]]]]]]]; subst sources;
      vm_compute; reflexivity.
  - destruct Horder as [E|[E|[E|[E|[E|[E|[]]]]]]]; subst sources;
      vm_compute; reflexivity.
  - destruct (get necessary "lib/token/Token.sol") as [v|] eqn:E; [|reflexivity].
    destruct (Hout _ _ E) as [Hr _]. exfalso. exact (Hun _ Hr eq_refl).
  - intros k Hk. apply ObjectFacts.has_get in Hk as [v Hv].
    destruct (Hout k v Hv) as [Hr [_ Hread]]. apply Hun in Hr.
    apply ObjectFacts.read_cases in Hread.
    destruct Hread as [[w [_ Hget]]|[_ [_ Hname]]]; [|tauto].
    remember (allAvailableFiles resolver) as available eqn:Ea.
    destruct Horder as [E|[E|[E|[E|[E|[E|[]]]]]]]; subst sources;
      vm_compute in Ea; subst available; cbn [get] in Hget;
      repeat match type of Hget with
        | context [String.eqb ?a k] =>
            destruct (String.eqb_spec a k); [subst k; tauto|]
        end;
      discriminate Hget.
Qed.

Lemma token_keyed_at_original_prefix_witness :
  exists necessary out,
    resolveNecessaryImports Examples.tokenResolver = Some (necessary, out)
    /\ get necessary "@lib/Token.sol"
       = Some (own (mkSourceFile "contract TokenAtResolved {}"))
    /\ get necessary "lib/token/Token.sol" = None.
Proof.
  destruct (token_keyed_at_original_prefix
              (Examples.importOf "@lib/Token.sol")
              "contract TokenAtOriginal {}" "contract TokenAtResolved {}"
              Examples.tokenFiles)
    as [_ [_ [necessary [out [H1 [_ [H2 [_ [H3 _]]]]]]]]].
  - left. reflexivity.
  - intros f text i c [[-> ->]|[-> ->]] Hi; vm_compute in Hi.
    + destruct Hi as [<-|[]]. vm_compute. discriminate.
    + destruct Hi.
  - exists necessary, out. split; [exact H1|]. split; [exact H2 | exact H3].
Defined.

(** C2, as the specification has it, fails: the entry is not keyed at
    "lib/token/Token.sol" and does not hold the content of the file given at
    "@lib/Token.sol". *)
Lemma token_not_keyed_at_resolved_path : ~ Claimed.tokenKeyedAtResolvedPath.
Proof.
  intros [necessary [out [Hres [Hget _]]]].
  assert (E : resolveNecessaryImports Examples.tokenResolver
              = Some ([("@lib/Token.sol",
                        own (mkSourceFile "contract TokenAtResolved {}"));
                       ("Main.sol",
                        own (mkSourceFile (Examples.importOf "@lib/Token.sol")))],
                      [])) by (vm_compute; reflexivity).
  rewrite E in Hres. injection Hres as <- <-.
  vm_compute in Hget. discriminate.
Qed.

End ClosureClaims.

Module SubmapClaims.
Import JsObject FilfoxVerifier Spec ClosureResults.

Lemma insertIndex_keys {V : Type} (n : N) (o : JsObject.t V) (k : string) (v : V)
  (x : string) :
  In x (keys (insertIndex n k v o)) <-> x = k \/ In x (keys o).
Proof.
  unfold keys. induction o as [|[k0 v0] o IH]; simpl.
  - intuition.
  - destruct (arrayIndex k0) as [m|]; [destruct (n <? m)%N|]; simpl;
      try rewrite IH; intuition.
Qed.

Lemma insertIndex_NoDup {V : Type} (n : N) (o : JsObject.t V) (k : string) (v : V) :
  ~ In k (keys o) -> NoDup (keys o) -> NoDup (keys (insertIndex n k v o)).
Proof.
  induction o as [|[k0 v0] o IH]; intros Hk Hnd.
  - repeat constructor. intros [].
  - assert (Hcons : NoDup (keys ((k, v) :: (k0, v0) :: o)))
      by (constructor; assumption).
    simpl. destruct (arrayIndex k0) as [m|]; [destruct (n <? m)%N|]; try exact Hcons.
    inversion Hnd as [|? ? Hk0 Hnd']; subst.
    change (NoDup (k0 :: keys (insertIndex n k v o))). constructor.
    + rewrite insertIndex_keys. intros [->|H]; [|contradiction].
      apply Hk. now left.
    + apply IH; [|assumption]. intros H. apply Hk. now right.
Qed.

Lemma set_keys_NoDup {V : Type} (o : JsObject.t V) (k : string) (v : V) :
  NoDup (keys o) -> NoDup (keys (set k v o)).
Proof.
  intros Hnd. unfold set. destruct (has o k) eqn:Hk.
  - assert (E : keys (overwrite k v o) = keys o); [|now rewrite E].
    clear. unfold keys. induction o as [|[k0 v0] o IH]; simpl; [reflexivity|].
    destruct (String.eqb k0 k); simpl; [reflexivity | now rewrite IH].
  - assert (Hnotin : ~ In k (keys o)).
    { intros H. apply ObjectFacts.has_keys in H. congruence. }
    destruct (arrayIndex k) as [n|]; [now apply insertIndex_NoDup|].
    unfold keys. rewrite map_app. simpl.
    apply NoDup_app; [assumption | repeat constructor; intros [] |].
    intros a Ha [<-|[]]. contradiction.
Qed.

Lemma assign_keys_NoDup {V : Type} (o : JsObject.t V) (k : string) (v : V) :
  NoDup (keys o) -> NoDup (keys (assign k v o)).
Proof.
  intros Hnd. unfold assign.
  destruct (String.eqb k "__proto__" && negb (has o k)); [assumption|].
  now apply set_keys_NoDup.
Qed.

(** The object [createRemappedSourceFiles] builds lists no key twice. *)
Lemma createRemappedSourceFiles_NoDup
  (sources : JsObject.t SourceFile) (remappings : list Remapping) :
  NoDup (keys (createRemappedSourceFiles sources remappings)).
Proof.
  unfold createRemappedSourceFiles, entries.
  assert (G : forall acc : JsObject.t SourceFile,
             NoDup (keys acc) ->
             NoDup (keys (fold_left
               (fun remappedFiles entry =>
                  match find (fun mapping =>
                                JsString.startsWith (fst entry) (resolved mapping))
                          remappings with
                  | Some remapping =>
                      assign (JsString.replace (fst entry) (resolved remapping)
                                (original remapping))
                        (snd entry) remappedFiles
                  | None => remappedFiles
                  end) sources acc))).
  { induction sources as [|e sources IH]; intros acc Hacc; simpl; [assumption|].
    apply IH. destruct (find _ remappings); [now apply assign_keys_NoDup | assumption]. }
  apply G. constructor.
Qed.

(** The combined available files [{...sourceFiles, ...remappedSourceFiles}]
    have the keys of both objects, and at a key of both they hold the
    remapped file. *)
Lemma allAvailableFiles_shadowing (resolver : ImportResolver) :
  (forall k, has (allAvailableFiles resolver) k
             = has (sourceFiles resolver) k || has (remappedSourceFiles resolver) k)
  /\ (NoDup (keys (sourceFiles resolver)) ->
      NoDup (keys (remappedSourceFiles resolver)) ->
      forall k, get (allAvailableFiles resolver) k
                = match get (remappedSourceFiles resolver) k with
                  | Some v => Some v
                  | None => get (sourceFiles resolver) k
                  end).
Proof.
  split.
  - intros k. apply ObjectFacts.has_spread2.
  - intros H1 H2 k. now apply ObjectFacts.get_spread2.
Qed.

(** C10, which the code breaks.  For the one source file A.sol whose text
    imports the path "constructor", and no remappings, the combined
    available files have no key "constructor"; yet the lookup
    [availableFiles[importPath]] of [resolveImportPath] finds the member that
    [Object.prototype] has under that name, and the result gets the key
    "constructor", which holds that member and no source file.  In general
    the call returns, and every entry of the result is either an entry of the
    combined available files, the same key with the same file, or such an
    inherited member under its name, a name that is no key of the combined
    available files. *)
Theorem closure_holds_inherited_member :
  has (allAvailableFiles Examples.constructorResolver) "constructor" = false
  /\ resolveNecessaryImports Examples.constructorResolver
     = Some ([ ("A.sol", own (mkSourceFile (Examples.importOf "constructor")));
               ("constructor", inherited "constructor") ], [])
  /\ forall resolver,
       exists necessary out,
         resolveNecessaryImports resolver = Some (necessary, out)
         /\ forall k file,
              get necessary k = Some file ->
              (exists v, file = own v /\ get (allAvailableFiles resolver) k = Some v)
              \/ (file = inherited k
                  /\ has (allAvailableFiles resolver) k = false
                  /\ isObjectPrototypeName k = true).
Proof.
  split; [vm_compute; reflexivity|]. split; [vm_compute; reflexivity|].
  intros resolver.
  destruct (traversal_result resolver) as [necessary [out [Hres [_ [Hout _]]]]].
  exists necessary, out. split; [exact Hres|].
  intros k file Hk. destruct (Hout k file Hk) as [_ [_ Hread]].
  apply ObjectFacts.read_cases in Hread.
  destruct Hread as [H|[H1 [H2 H3]]]; [now left | right].
  split; [assumption|]. split; [now apply ObjectFacts.has_false_get | assumption].
Qed.

End SubmapClaims.

Module UnresolvedClaims.
Import JsObject FilfoxVerifier Spec ClosureResults.




End UnresolvedClaims.

(** ** verify *)

Module VerifyClaims.
Import JsObject FilfoxVerifier Spec ClosureResults.

Lemma parseRemappingsAny_strings (rules : list string) :
  parseRemappingsAny (VArray (map VString rules)) = parseRemappings rules.
Proof.
  unfold parseRemappingsAny, parseRemappings.
  induction rules as [|r rules IH]; [reflexivity|].
  simpl. now rewrite IH.
Qed.

(** The [try] block of [verify] completes: by a value or by an exception. *)
Lemma verifyTry_completes
  (fetch : string -> RequestBody -> fetch_outcome) (self : t)
  (request : VerificationRequest) :
  exists c out, verifyTry fetch self request = Some (c, out).
Proof.
  unfold verifyTry.
  destruct (bind _ _) as [rules|e]; [|eauto].
  destruct (traversal_result
              (mkImportResolver (req_sourceFiles request)
                 (createRemappedSourceFiles (req_sourceFiles request) rules) rules))
    as [necessary [out [Hres _]]].
  rewrite Hres. destruct (fetch _ _); eauto.
Qed.

(** C9.  [verify] never throws: it always returns a value, and whenever
    a statement of its [try] block throws, that value is the object with
    [errorCode] 8.  So it is for a remapping rule with no equals sign, for
    metadata whose settings have no remappings, and for a request that the
    network fails. *)
Theorem verify_never_throws
  (fetch : string -> RequestBody -> fetch_outcome) (self : t)
  (request : VerificationRequest) :
  (exists result out, verify fetch self request = Some (Return result, out))
  /\ (forall e out,
         verifyTry fetch self request = Some (Throw e, out) ->
         verify fetch self request
         = Some (Return errorCode8, out ++ [error_verification_failed e]))
  /\ (forall rules,
         req_metadata request = Examples.metadataWith rules ->
         Exists (fun r => JsString.includes r "=" = false) rules ->
         exists e,
           verify fetch self request
           = Some (Return errorCode8, [error_verification_failed e]))
  /\ (forall settings,
         getProp (req_metadata request) "settings" = Return settings ->
         getProp settings "remappings" = Return VUndefined ->
         exists e,
           verify fetch self request
           = Some (Return errorCode8, [error_verification_failed e]))
  /\ (forall e,
         (forall url body, fetch url body = FetchRejected e) ->
         exists out e',
           verify fetch self request
           = Some (Return errorCode8, out ++ [error_verification_failed e'])).
Proof.
  split; [|split; [|split; [|split]]].
  - unfold verify.
    destruct (verifyTry_completes fetch self request) as [[result|e] [out H]];
      rewrite H; eauto.
  - intros e out H. unfold verify. now rewrite H.
  - intros rules Hm Hex.
    exists (TypeError "Cannot read properties of undefined (reading 'trim')").
    unfold verify, verifyTry. rewrite Hm.
    cbn [Examples.metadataWith getProp get String.eqb Ascii.eqb Bool.eqb bind].
    rewrite parseRemappingsAny_strings.
    rewrite (RemappingFacts.parseRemappings_unseparated rules Hex).
    reflexivity.
  - intros settings H1 H2. eexists.
    unfold verify, verifyTry. rewrite H1. cbn [bind]. rewrite H2. reflexivity.
  - intros e Hfetch. unfold verify.
    destruct (verifyTry fetch self request) as [[[result|e'] out]|] eqn:Htry.
    + exfalso. unfold verifyTry in Htry.
      destruct (bind _ _) as [rules|]; [|discriminate].
      destruct (resolveNecessaryImports _) as [[necessary out']|]; [|discriminate].
      rewrite Hfetch in Htry. discriminate.
    + eauto.
    + destruct (verifyTry_completes fetch self request) as [c [out H]]. congruence.
Qed.

Lemma verify_never_throws_witness :
  exists e,
    verify (fun _ _ => JsonParsed (VObject [("errorCode", VNumber 0)]))
      (mkVerifier "https://filfox.info/api/v1/tools/verifyContract" 314)
      (Examples.sampleRequest (Examples.metadataWith ["no separator"]))
    = Some (Return errorCode8, [error_verification_failed e]).
Proof.
  apply (proj1 (proj2 (proj2
           (verify_never_throws
              (fun _ _ => JsonParsed (VObject [("errorCode", VNumber 0)]))
              (mkVerifier "https://filfox.info/api/v1/tools/verifyContract" 314)
              (Examples.sampleRequest (Examples.metadataWith ["no separator"])))))
         ["no separator"]).
  - reflexivity.
  - apply Exists_cons_hd. reflexivity.
Defined.

(** A request the service answers: the answer is returned as it is. *)
Lemma verify_returns_answer :
  verify (fun _ _ => JsonParsed (VObject [("errorCode", VNumber 0)]))
    (mkVerifier "https://filfox.info/api/v1/tools/verifyContract" 314)
    (Examples.sampleRequest (Examples.metadataWith []))
  = Some (Return (VObject [("errorCode", VNumber 0)]), []).
Proof. vm_compute. reflexivity. Qed.

End VerifyClaims.

(** ** resolveRemappedImport *)

Module RemappedImportFacts.
Import JsString FilfoxVerifier Spec.

#[local] Set Warnings "-notation-for-abbreviation".

Section Selection.

Variable importPath : string.

Notation applies m := (startsWith importPath (original m)).
Notation size m := (String.length (original m)).
Notation byLongest :=
  (fun a b : Remapping => (Z.of_nat (size b) - Z.of_nat (size a))%Z).

(** The head of the sorted list of the applicable rules: the first of the
    longest applicable rules. *)
Lemma sorted_head (remappings : list Remapping) :
  match sort byLongest (filter (fun m => applies m) remappings) with
  | [] => forall m, In m remappings -> applies m = false
  | m :: _ =>
      exists before after,
        remappings = before ++ m :: after
        /\ applies m = true
        /\ (forall m', In m' before -> applies m' = true -> size m' < size m)
        /\ (forall m', In m' after -> applies m' = true -> size m' <= size m)
  end.
Proof.
  induction remappings as [|a l IH]; [intros m []|].
  cbn [filter]. destruct (applies a) eqn:Ha.
  - cbn [sort].
    destruct (sort byLongest (filter (fun m => applies m) l)) as [|b t].
    + cbn [insertSorted]. exists [], l. repeat split; try assumption.
      * intros m' [].
      * intros m' Hin Hm'. rewrite (IH m' Hin) in Hm'. discriminate.
    + destruct IH as [before [after [-> [Hb [Hlt Hle]]]]].
      cbn [insertSorted].
      destruct (Z.leb_spec (Z.of_nat (size b) - Z.of_nat (size a)) 0) as [Hcmp|Hcmp].
      * exists [], (before ++ b :: after). repeat split; try assumption.
        -- intros m' [].
        -- intros m' Hin Hm'. apply in_app_iff in Hin. destruct Hin as [H|[<-|H]].
           ++ specialize (Hlt m' H Hm'). lia.
           ++ lia.
           ++ specialize (Hle m' H Hm'). lia.
      * exists (a :: before), after. repeat split; try assumption.
        intros m' [<-|H] Hm'; [lia | now apply Hlt].
  - destruct (sort byLongest (filter (fun m => applies m) l)) as [|b t].
    + intros m [<-|H]; [assumption | now apply IH].
    + destruct IH as [before [after [-> [Hb [Hlt Hle]]]]].
      exists (a :: before), after. repeat split; try assumption.
      intros m' [<-|H] Hm'; [congruence | now apply Hlt].
Qed.

(** The rule [resolveRemappedImport] selects is the first of the longest
    rules whose original is a prefix of the import, and the result is what
    [replace] makes of the import; when the resolved string of the rule
    holds no dollar sign, the result is that string followed by the rest of
    the import. *)
Lemma resolveRemappedImport_longest_prefix (remappings : list Remapping) :
  match resolveRemappedImport importPath remappings with
  | None => forall m, In m remappings -> applies m = false
  | Some p =>
      exists before m after,
        remappings = before ++ m :: after
        /\ applies m = true
        /\ (forall m', In m' before -> applies m' = true -> size m' < size m)
        /\ (forall m', In m' after -> applies m' = true -> size m' <= size m)
        /\ p = replace importPath (original m) (resolved m)
        /\ (dollarFree (resolved m) ->
            p = (resolved m ++ drop (size m) importPath)%string)
  end.
Proof.
  unfold resolveRemappedImport. pose proof (sorted_head remappings) as H.
  destruct (sort _ _) as [|m t]; [exact H|].
  destruct H as [before [after [E [Hm [Hlt Hle]]]]].
  exists before, m, after. repeat split; try assumption.
  intros Hd. now apply StringFacts.replace_prefix.
Qed.

End Selection.

(** C6.  With the rules "@oz/=lib/a/" and "@oz/utils/=lib/b/" the import
    "@oz/utils/Math.sol" is rewritten by the longer rule to "lib/b/Math.sol".
    The prefix is replaced through [String.prototype.replace], which reads
    the dollar patterns of the replacement: with the rule "a/=$&b/" the
    import "a/x" becomes "a/b/x", not the resolved string "$&b/" followed by
    "x". *)
Theorem resolveRemappedImport_dollar_pattern :
  resolveRemappedImport "@oz/utils/Math.sol" Examples.ozRemappings
  = Some "lib/b/Math.sol"
  /\ parseRemappings ["a/=$&b/"] = Return [mkRemapping "a/" "$&b/"]
  /\ resolveRemappedImport "a/x" [mkRemapping "a/" "$&b/"] = Some "a/b/x"
  /\ resolveRemappedImport "a/x" [mkRemapping "a/" "$&b/"]
     <> Some ("$&b/" ++ drop (String.length "a/") "a/x")%string.
Proof. repeat split; try reflexivity. discriminate. Qed.

End RemappedImportFacts.

(** * Further properties *)

(** ** pathContextMatches *)

Module PathContextFacts.
Import JsString FilfoxVerifier.

Lemma count_matches (available : list string) (l : list string) (n : nat) :
  fold_left (fun matches segment => if mem segment available then S matches else matches)
    l n
  = n + List.length (filter (fun s => mem s available) l).
Proof.
  revert n. induction l as [|s l IH]; intros n; simpl; [lia|].
  rewrite IH. destruct (mem s available); simpl; lia.
Qed.

Lemma filter_split_length {A} (f : A -> bool) (l : list A) :
  List.length l
  = List.length (filter f l) + List.length (filter (fun x => negb (f x)) l).
Proof.
  induction l as [|x l IH]; simpl; [reflexivity|].
  destruct (f x); simpl; lia.
Qed.

Lemma pathContextMatches_counts (importPath availablePath : string) :
  pathContextMatches importPath availablePath = true
  <-> (exists s, In s (pathSegments importPath) /\ In s (pathSegments availablePath))
      /\ List.length
           (filter (fun s => negb (mem s (pathSegments availablePath)))
              (pathSegments importPath)) <= 1.
Proof.
  unfold pathContextMatches. rewrite count_matches. rewrite Nat.add_0_l.
  pose proof (filter_split_length (fun s => mem s (pathSegments availablePath))
                (pathSegments importPath)) as Hlen.
  cbv beta in Hlen.
  rewrite Nat.leb_le.
  assert (Hex : (exists s, In s (pathSegments importPath)
                           /\ In s (pathSegments availablePath))
                <-> 1 <= List.length (filter (fun s => mem s (pathSegments availablePath))
                                        (pathSegments importPath))).
  { split.
    - intros [s [Hi Ha]].
      assert (Hin : In s (filter (fun s => mem s (pathSegments availablePath))
                            (pathSegments importPath))).
      { apply filter_In. split; [assumption | now apply StringFacts.mem_In]. }
      destruct (filter _ (pathSegments importPath)); [destruct Hin | simpl; lia].
    - intros H.
      destruct (filter _ (pathSegments importPath)) as [|s l] eqn:E; [simpl in H; lia|].
      assert (Hin : In s (filter (fun s => mem s (pathSegments availablePath))
                            (pathSegments importPath))) by (rewrite E; now left).
      apply filter_In in Hin as [Hi Ha]. exists s. split; [assumption|].
      now apply StringFacts.mem_In. }
  rewrite Hex. lia.
Qed.

(** X1.  [pathContextMatches] accepts a candidate exactly when some segment
    of the import is a segment of the candidate and at most one segment of
    the import is not. *)
Theorem pathContextMatches_iff (importPath availablePath : string) :
  pathContextMatches importPath availablePath = true
  <-> (exists s, In s (pathSegments importPath) /\ In s (pathSegments availablePath))
      /\ List.length
           (filter (fun s => negb (mem s (pathSegments availablePath)))
              (pathSegments importPath)) <= 1.
Proof. apply pathContextMatches_counts. Qed.

(** X2.  A path with a segment other than the dots matches itself, and an
    import with no such segment matches nothing. *)
Theorem pathContextMatches_self_and_empty (p : string) :
  (pathSegments p <> [] -> pathContextMatches p p = true)
  /\ (pathSegments p = [] -> forall availablePath, pathContextMatches p availablePath = false).
Proof.
  split.
  - intros Hne. apply pathContextMatches_counts. split.
    + destruct (pathSegments p) as [|s l]; [contradiction|]. exists s. split; now left.
    + assert (E : filter (fun s => negb (mem s (pathSegments p))) (pathSegments p) = []).
      { assert (G : forall l, (forall s, In s l -> In s (pathSegments p)) ->
                              filter (fun s => negb (mem s (pathSegments p))) l = []).
        { induction l as [|s l IH]; intros H; [reflexivity|]. simpl.
          assert (Hs : mem s (pathSegments p) = true)
            by (apply StringFacts.mem_In, H; now left).
          rewrite Hs. simpl. apply IH. intros x Hx. apply H. now right. }
        apply G. auto. }
      rewrite E. simpl. lia.
  - intros He availablePath. unfold pathContextMatches. rewrite He. reflexivity.
Qed.

Lemma pathContextMatches_self_and_empty_witness :
  pathContextMatches "src/a/Main.sol" "src/a/Main.sol" = true
  /\ pathContextMatches "./.." "lib/Token.sol" = false.
Proof.
  split.
  - apply (proj1 (pathContextMatches_self_and_empty "src/a/Main.sol")). discriminate.
  - apply (proj2 (pathContextMatches_self_and_empty "./..")). reflexivity.
Defined.

End PathContextFacts.

(** ** The compiler version and remappings of any type *)

Module MoreVersionFacts.
Import JsString FilfoxVerifier.

(** X3.  The result of [normalizeCompilerVersion] always contains the
    letter v, and normalizing it again changes nothing: the prefix is never
    added twice. *)
Theorem normalizeCompilerVersion_idempotent (compiler : string) :
  includes (normalizeCompilerVersion compiler) "v" = true
  /\ normalizeCompilerVersion (normalizeCompilerVersion compiler)
     = normalizeCompilerVersion compiler.
Proof.
  assert (H : includes (normalizeCompilerVersion compiler) "v" = true).
  { unfold normalizeCompilerVersion. destruct (includes compiler "v") eqn:E; [exact E|].
    unfold includes.
    now rewrite (StringFacts.indexOf_startsWith _ _ (StringFacts.startsWith_app "v" compiler)). }
  split; [exact H|].
  unfold normalizeCompilerVersion at 1. now rewrite H.
Qed.

End MoreVersionFacts.

Module AnyRemappingFacts.
Import JsString FilfoxVerifier.

(** X4.  On a value of any type [parseRemappings] returns rules exactly
    when the value is an array of strings that each contain an equals sign;
    the rules are then the first two pieces of each string.  Every other
    value makes it throw. *)
Theorem parseRemappingsAny_returns_iff (remappingsArray : value) (rules : list Remapping) :
  parseRemappingsAny remappingsArray = Return rules
  <-> exists strings,
        remappingsArray = VArray (map VString strings)
        /\ Forall (fun r => includes r "=" = true) strings
        /\ rules = map Spec.firstTwoPieces strings.
Proof.
  split.
  - destruct remappingsArray as [| | | | |l|]; try discriminate.
    unfold parseRemappingsAny. revert rules.
    induction l as [|v l IH]; intros rules H.
    + injection H as <-. exists []. repeat split. constructor.
    + cbn [mapM] in H.
      destruct v as [| | | |s| |]; try discriminate H.
      destruct (includes s "=") eqn:Hs.
      * rewrite (RemappingFacts.parseMapping_separator _ Hs) in H. cbn [bind] in H.
        destruct (mapM _ l) as [rs|e] eqn:Hl; [|discriminate H].
        cbn [bind] in H. injection H as <-.
        destruct (IH rs eq_refl) as [strings [E [Hall ->]]]. injection E as ->.
        exists (s :: strings). repeat split. now constructor.
      * rewrite (RemappingFacts.parseMapping_no_separator _ Hs) in H. discriminate H.
  - intros [strings [-> [Hall ->]]].
    rewrite VerifyClaims.parseRemappingsAny_strings.
    now apply RemappingFacts.parseRemappings_separated.
Qed.

End AnyRemappingFacts.

(** ** What extractImports captures *)

Module CaptureFacts.
Import JsString FilfoxVerifier Regex.

Lemma tryCounts_some {R} (n : nat) (f : nat -> option R) (x : R) :
  tryCounts n f = Some x -> exists m, m <= n /\ f m = Some x.
Proof.
  induction n as [|n IH]; simpl.
  - destruct (f 0) eqn:E; [|discriminate]. intros [= <-]. exists 0. auto.
  - destruct (f (S n)) eqn:E.
    + intros [= <-]. exists (S n). auto.
    + intros H. destruct (IH H) as [m [Hm Hf]]. exists m. auto.
Qed.

Lemma take_run (k : charClass) (n : nat) (s : string) (c : ascii) :
  n <= run k s -> In c (list_ascii_of_string (take n s)) -> classMatches k c = true.
Proof.
  revert s. induction n as [|n IH]; intros s Hn Hc; [destruct s; destruct Hc|].
  destruct s as [|d s]; [destruct Hc|]. simpl in Hn, Hc.
  destruct (classMatches k d) eqn:Hd; [|lia].
  destruct Hc as [<-|Hc]; [exact Hd|]. apply (IH s); [lia | exact Hc].
Qed.

Lemma take_nonempty (k : charClass) (n : nat) (s : string) :
  n <> 0 -> n <= run k s -> take n s <> "".
Proof.
  destruct n as [|n]; [congruence|]. intros _ Hn.
  destruct s as [|d s]; [simpl in Hn; lia | discriminate].
Qed.

(** The text a match captures is a non-empty run of characters of the class
    of a capture group of the pattern. *)
Lemma matchHere_capture (r : regex) (s cap rest : string) :
  matchHere r s = Some (Some cap, rest) ->
  exists k, In (CapturePlus k) r
            /\ cap <> ""
            /\ forall c, In c (list_ascii_of_string cap) -> classMatches k c = true.
Proof.
  revert s. induction r as [|nd r IH]; intros s H; [discriminate|].
  assert (Hrest : forall s', matchHere r s' = Some (Some cap, rest) ->
                             exists k, In (CapturePlus k) (nd :: r)
                                       /\ cap <> ""
                                       /\ forall c, In c (list_ascii_of_string cap) ->
                                                    classMatches k c = true).
  { intros s' H'. destruct (IH s' H') as [k [Hk Hc]]. exists k. split; [now right | exact Hc]. }
  destruct nd as [l|k|k|k|k]; cbn [matchHere] in H.
  - destruct (startsWith s l); [|discriminate]. eapply Hrest, H.
  - destruct s as [|c s]; [discriminate|].
    destruct (classMatches k c); [|discriminate]. eapply Hrest, H.
  - apply tryCounts_some in H as [m [_ H]]. eapply Hrest, H.
  - apply tryCounts_some in H as [m [_ H]].
    destruct (m =? 0)%nat; [discriminate|]. eapply Hrest, H.
  - apply tryCounts_some in H as [m [Hm H]].
    destruct (m =? 0)%nat eqn:Hz; [discriminate|]. apply Nat.eqb_neq in Hz.
    destruct (matchHere r (drop m s)) as [[c' rest']|]; [|discriminate].
    injection H as <- <-. exists k. split; [now left|]. split.
    + now apply (take_nonempty k).
    + intros c. now apply take_run.
Qed.

Lemma execLoop_matches (r : regex) (s : string) (pos skip : nat) (m : matchResult) :
  In m (execLoop r s pos skip) ->
  exists s' rest, matchHere r s' = Some (group1 m, rest).
Proof.
  revert pos skip. induction s as [|c s IH]; intros pos skip H; [destruct H|].
  cbn [execLoop] in H. destruct skip as [|k]; [|eapply IH, H].
  destruct (matchHere r (String c s)) as [[cap rest]|] eqn:E; [|eapply IH, H].
  destruct H as [<-|H]; [|eapply IH, H].
  exists (String c s), rest. exact E.
Qed.

Lemma extractImports_captured (content p : string) :
  In p (extractImports content) ->
  exists r m, In r importRegexes /\ In m (execAll r content) /\ group1 m = Some p.
Proof.
  unfold extractImports. rewrite ExtractFacts.extractImports_fold.
  rewrite ExtractFacts.fold_step_In. intros [[]|H].
  apply in_flat_map in H as [r [Hr H]]. unfold Spec.captures in H.
  apply in_flat_map in H as [m [Hm H]].
  exists r, m. split; [exact Hr|]. split; [exact Hm|].
  destruct (group1 m) as [q|]; [|destruct H].
  destruct (String.eqb q ""); [destruct H|]. destruct H as [<-|[]]. reflexivity.
Qed.

(** X5.  An import path that [extractImports] returns is never empty and
    holds neither a double nor a single quote. *)
Theorem extractImports_paths_quote_free (content p : string) :
  In p (extractImports content) ->
  p <> "" /\ forall c, In c (list_ascii_of_string p) -> isQuote c = false.
Proof.
  intros H. destruct (extractImports_captured content p H) as [r [m [Hr [Hm Hg]]]].
  destruct (execLoop_matches r content 0 0 m Hm) as [s' [rest Hmatch]].
  rewrite Hg in Hmatch.
  destruct (matchHere_capture r s' p rest Hmatch) as [k [Hk [Hne Hc]]].
  assert (Hq : k = NotQuote).
  { unfold importRegexes in Hr. simpl in Hr.
    destruct Hr as [<-|[<-|[<-|[<-|[]]]]]; simpl in Hk;
      repeat (destruct Hk as [Hk|Hk]; [try discriminate Hk; now injection Hk as <-|]);
      destruct Hk. }
  subst k. split; [exact Hne|].
  intros c Hin. specialize (Hc c Hin). simpl in Hc.
  now destruct (isQuote c).
Qed.

Lemma extractImports_paths_quote_free_witness :
  "./B.sol" <> ""
  /\ forall c, In c (list_ascii_of_string "./B.sol") -> isQuote c = false.
Proof.
  apply (extractImports_paths_quote_free (Examples.importOf "./B.sol") "./B.sol").
  vm_compute. now left.
Defined.

Lemma includes_false_cons (c : ascii) (s p : string) :
  includes (String c s) p = false ->
  startsWith (String c s) p = false /\ includes s p = false.
Proof.
  unfold includes. cbn [indexOf].
  destruct (startsWith (String c s) p); [discriminate|].
  destruct (indexOf s p); [discriminate|]. auto.
Qed.

Lemma execLoop_without_keyword (r : regex) (tail : regex) (s : string) (pos skip : nat) :
  r = Chars "import" :: tail ->
  includes s "import" = false -> execLoop r s pos skip = [].
Proof.
  intros ->. revert pos skip. induction s as [|c s IH]; intros pos skip H; [reflexivity|].
  apply includes_false_cons in H as [Hs Hi].
  cbn [execLoop]. destruct skip as [|k]; [|now apply IH].
  cbn [matchHere]. rewrite Hs. now apply IH.
Qed.

(** X6.  A text that does not contain the word import has no imports. *)
Theorem extractImports_without_keyword (content : string) :
  includes content "import" = false -> extractImports content = [].
Proof.
  intros H. unfold extractImports, importRegexes, execAll. cbn [fold_left].
  repeat (erewrite execLoop_without_keyword; [|reflexivity|exact H]).
  reflexivity.
Qed.

Lemma extractImports_without_keyword_witness :
  extractImports "contract B {}" = [].
Proof. apply extractImports_without_keyword. reflexivity. Defined.

End CaptureFacts.

(** ** createRemappedSourceFiles and the seeds *)

Module RemappedFilesFacts.
Import JsObject FilfoxVerifier.

#[local] Set Warnings "-notation-for-abbreviation".

Section Aliases.

Variable remappings : list Remapping.

Notation ruleFor p :=
  (find (fun mapping => JsString.startsWith p (resolved mapping)) remappings).
Notation step :=
  (fun (remappedFiles : JsObject.t SourceFile) (entry : string * SourceFile) =>
     let filePath := fst entry in
     let fileContent := snd entry in
     match ruleFor filePath with
     | Some remapping =>
         let remappedPath :=
           JsString.replace filePath (resolved remapping) (original remapping) in
         assign remappedPath fileContent remappedFiles
     | None => remappedFiles
     end).

Lemma fold_alias_get (sources acc : JsObject.t SourceFile) (k : string) (v : SourceFile) :
  get (fold_left step sources acc) k = Some v ->
  get acc k = Some v
  \/ exists p m, In (p, v) sources /\ ruleFor p = Some m
                 /\ k = JsString.replace p (resolved m) (original m).
Proof.
  revert acc. induction sources as [|[p f] sources IH]; intros acc H; [now left|].
  cbn [fold_left] in H. apply IH in H. destruct H as [H|[q [m [Hin [Hm Hk]]]]].
  - cbn [fst snd] in H. destruct (ruleFor p) as [m|] eqn:Hm; [|now left].
    cbv zeta in H. rewrite ObjectFacts.get_assign in H.
    destruct (String.eqb _ "__proto__" && negb _); [now left|].
    destruct (String.eqb_spec (JsString.replace p (resolved m) (original m)) k)
      as [<-|Hne]; [|now left].
    injection H as <-. right. exists p, m. split; [now left | auto].
  - right. exists q, m. split; [now right | auto].
Qed.

(** No assignment creates the key [__proto__]. *)
Lemma fold_alias_proto (sources acc : JsObject.t SourceFile) :
  has acc "__proto__" = false -> has (fold_left step sources acc) "__proto__" = false.
Proof.
  revert acc. induction sources as [|[p f] sources IH]; intros acc H; [exact H|].
  cbn [fold_left]. apply IH. cbn [fst snd].
  destruct (ruleFor p) as [m|]; [|exact H].
  cbv zeta. rewrite ObjectFacts.has_assign.
  destruct (String.eqb_spec (JsString.replace p (resolved m) (original m)) "__proto__")
    as [E|E].
  - rewrite E, H. reflexivity.
  - cbn [andb orb]. exact H.
Qed.

Lemma fold_alias_has_mono (sources acc : JsObject.t SourceFile) (k : string) :
  has acc k = true -> has (fold_left step sources acc) k = true.
Proof.
  revert acc. induction sources as [|[p f] sources IH]; intros acc H; [exact H|].
  cbn [fold_left]. apply IH. cbn [fst snd].
  destruct (ruleFor p) as [m|]; [|exact H].
  cbv zeta. rewrite ObjectFacts.has_assign.
  destruct (String.eqb _ "__proto__" && negb _); [exact H|].
  rewrite H. apply orb_true_r.
Qed.

Lemma fold_alias_has (sources acc : JsObject.t SourceFile) (p : string) (f : SourceFile)
  (m : Remapping) :
  In (p, f) sources -> ruleFor p = Some m ->
  JsString.replace p (resolved m) (original m) <> "__proto__" ->
  has (fold_left step sources acc)
    (JsString.replace p (resolved m) (original m)) = true.
Proof.
  revert acc. induction sources as [|[q g] sources IH]; intros acc Hin Hm Hp;
    [destruct Hin|].
  cbn [fold_left]. destruct Hin as [[= -> ->]|Hin]; [|now apply IH].
  apply fold_alias_has_mono. cbn [fst snd]. rewrite Hm. cbv zeta.
  unfold has. rewrite (ObjectFacts.get_assign_plain _ _ _ _ Hp), String.eqb_refl.
  reflexivity.
Qed.

(** The aliases of the source files: what [createRemappedSourceFiles]
    holds and what it does not leave out. *)
Lemma createRemappedSourceFiles_entries (sources : JsObject.t SourceFile) :
  (forall k v,
      get (createRemappedSourceFiles sources remappings) k = Some v ->
      exists p m, In (p, v) sources /\ ruleFor p = Some m
                  /\ k = JsString.replace p (resolved m) (original m))
  /\ (forall p f m,
         In (p, f) sources -> ruleFor p = Some m ->
         JsString.replace p (resolved m) (original m) <> "__proto__" ->
         has (createRemappedSourceFiles sources remappings)
           (JsString.replace p (resolved m) (original m)) = true)
  /\ has (createRemappedSourceFiles sources remappings) "__proto__" = false.
Proof.
  split; [|split].
  - intros k v H. unfold createRemappedSourceFiles, entries in H.
    apply fold_alias_get in H. destruct H as [H|H]; [discriminate H | exact H].
  - intros p f m. apply fold_alias_has.
  - apply fold_alias_proto. reflexivity.
Qed.

End Aliases.

(** X7.  Every entry of the object [createRemappedSourceFiles] returns is the
    content of a source file whose path starts with the resolved prefix of a
    rule, stored under that path with the prefix replaced by the original of
    the first such rule; every such source file has its alias in the object,
    unless the alias is [__proto__], which is never a key of the object; no
    key is listed twice, and with no rules the object is empty. *)
Theorem createRemappedSourceFiles_aliases
  (sources : JsObject.t SourceFile) (remappings : list Remapping) :
  (forall k v,
      get (createRemappedSourceFiles sources remappings) k = Some v ->
      exists p m,
        In (p, v) sources
        /\ find (fun mapping => JsString.startsWith p (resolved mapping)) remappings = Some m
        /\ JsString.startsWith p (resolved m) = true
        /\ k = JsString.replace p (resolved m) (original m)
        /\ (Spec.dollarFree (original m) ->
            k = (original m ++ JsString.drop (String.length (resolved m)) p)%string))
  /\ (forall p f m,
         In (p, f) sources ->
         find (fun mapping => JsString.startsWith p (resolved mapping)) remappings = Some m ->
         JsString.replace p (resolved m) (original m) <> "__proto__" ->
         has (createRemappedSourceFiles sources remappings)
           (JsString.replace p (resolved m) (original m)) = true)
  /\ has (createRemappedSourceFiles sources remappings) "__proto__" = false
  /\ NoDup (keys (createRemappedSourceFiles sources remappings))
  /\ createRemappedSourceFiles sources [] = [].
Proof.
  destruct (createRemappedSourceFiles_entries remappings sources) as [Hget [Hhas Hproto]].
  split; [|split; [exact Hhas | split; [exact Hproto | split]]].
  - intros k v H. destruct (Hget k v H) as [p [m [Hin [Hm Hk]]]].
    exists p, m. split; [exact Hin|]. split; [exact Hm|].
    pose proof (find_some _ _ Hm) as [_ Hs]. cbv beta in Hs.
    split; [exact Hs|]. split; [exact Hk|].
    intros Hd. rewrite Hk. now apply StringFacts.replace_prefix.
  - apply SubmapClaims.createRemappedSourceFiles_NoDup.
  - clear. unfold createRemappedSourceFiles, entries.
    induction sources as [|e sources IH]; [reflexivity | exact IH].
Qed.

Lemma createRemappedSourceFiles_aliases_witness :
  has (createRemappedSourceFiles Examples.tokenFiles Examples.tokenRemappings)
    (JsString.replace "lib/token/Token.sol" "lib/token/" "@lib/") = true.
Proof.
  apply (proj1 (proj2 (createRemappedSourceFiles_aliases Examples.tokenFiles
                         Examples.tokenRemappings))
           "lib/token/Token.sol" (mkSourceFile "contract TokenAtResolved {}")
           (mkRemapping "@lib/" "lib/token/")).
  - simpl. tauto.
  - reflexivity.
  - vm_compute. discriminate.
Defined.

Lemma hasRemappedVersion_iff
  (sources : JsObject.t SourceFile) (rules : list Remapping) (p : string) :
  In p (keys sources) ->
  (forall m, find (fun mapping => JsString.startsWith p (resolved mapping)) rules = Some m ->
             JsString.replace p (resolved m) (original m) <> "__proto__") ->
  (hasRemappedVersion (Notions.resolverOf sources rules) p = true
   <-> exists m, In m rules /\ JsString.startsWith p (resolved m) = true).
Proof.
  intros Hp Hproto.
  unfold hasRemappedVersion, Notions.resolverOf. cbn [remappedSourceFiles remappings].
  split.
  - intros H. apply existsb_exists in H as [k [_ H]].
    apply existsb_exists in H as [m [Hm H]].
    apply andb_true_iff in H as [Hs _]. exists m. auto.
  - intros [m [Hm Hs]].
    destruct (find (fun mapping => JsString.startsWith p (resolved mapping)) rules)
      as [m0|] eqn:Hfind.
    + pose proof (find_some _ _ Hfind) as [Hm0 Hs0]. cbv beta in Hs0.
      unfold keys in Hp. apply in_map_iff in Hp as [[q f] [Hq Hin]].
      cbn [fst] in Hq. subst q.
      pose proof (proj1 (proj2 (createRemappedSourceFiles_entries rules sources))
                    p f m0 Hin Hfind (Hproto m0 eq_refl)) as Hhas.
      apply ObjectFacts.has_keys in Hhas.
      apply existsb_exists. eexists. split; [exact Hhas|].
      apply existsb_exists. exists m0. split; [exact Hm0|].
      now rewrite Hs0, String.eqb_refl.
    + pose proof (find_none _ _ Hfind m Hm) as Hn. cbv beta in Hn. congruence.
Qed.

(** X8.  In the resolver that [verify] builds, a source path whose alias
    under the first rule that applies to it is not [__proto__] has a
    remapped version exactly when the resolved prefix of some rule starts
    it: such a path is queued as a seed under its own name exactly when no
    rule applies to it. *)
Theorem seeds_of_verify_resolver
  (sources : JsObject.t SourceFile) (remappings : list Remapping) (p : string) :
  In p (keys sources) ->
  (forall m, find (fun mapping => JsString.startsWith p (resolved mapping)) remappings
             = Some m ->
             JsString.replace p (resolved m) (original m) <> "__proto__") ->
  (hasRemappedVersion (Notions.resolverOf sources remappings) p = true
   <-> exists m, In m remappings /\ JsString.startsWith p (resolved m) = true)
  /\ (In p (filter (fun originalPath =>
                      negb (hasRemappedVersion (Notions.resolverOf sources remappings)
                              originalPath))
              (keys sources))
      <-> forall m, In m remappings -> JsString.startsWith p (resolved m) = false).
Proof.
  intros Hp Hproto.
  pose proof (hasRemappedVersion_iff sources remappings p Hp Hproto) as Hiff.
  split; [exact Hiff|].
  rewrite filter_In. split.
  - intros [_ Hn] m Hm.
    destruct (JsString.startsWith p (resolved m)) eqn:Hs; [|reflexivity].
    assert (Ht : hasRemappedVersion (Notions.resolverOf sources remappings) p = true)
      by (apply Hiff; exists m; auto).
    rewrite Ht in Hn. discriminate.
  - intros Hall. split; [exact Hp|].
    apply negb_true_iff, not_true_iff_false. intros Ht.
    apply Hiff in Ht as [m [Hm Hs]]. rewrite (Hall m Hm) in Hs. discriminate.
Qed.

Lemma seeds_of_verify_resolver_witness :
  hasRemappedVersion
    (Notions.resolverOf Examples.tokenFiles Examples.tokenRemappings)
    "lib/token/Token.sol" = true
  <-> exists m, In m Examples.tokenRemappings
                /\ JsString.startsWith "lib/token/Token.sol" (resolved m) = true.
Proof.
  apply (proj1 (seeds_of_verify_resolver Examples.tokenFiles Examples.tokenRemappings
                  "lib/token/Token.sol" ltac:(simpl; tauto)
                  ltac:(intros m H; vm_compute in H; inversion H; vm_compute;
                        discriminate))).
Defined.

(** In a spread, an own property of the second object is what the result
    holds. *)
Lemma get_spread2_right {V : Type} (a b : JsObject.t V) (k : string) (v : V) :
  NoDup (keys b) -> get b k = Some v -> get (spread2 a b) k = Some v.
Proof.
  intros Hb Hk. unfold spread2, entries. rewrite ObjectFacts.get_fold_set.
  rewrite rev_app_distr.
  assert (E : forall (x y : JsObject.t V),
             get (x ++ y) k = match get x k with Some w => Some w | None => get y k end).
  { intros x y. induction x as [|[k1 v1] x IHx]; simpl; [reflexivity|].
    destruct (String.eqb k1 k); [reflexivity | exact IHx]. }
  rewrite E, (ObjectFacts.get_rev_NoDup _ _ Hb), Hk. reflexivity.
Qed.

(** X18.  In the result for the resolver that [verify] builds, the key
    [__proto__] apart: a source path to which no rule applies is a key, and
    holds the file that the combined available files hold at that path; for
    a source path to which a rule applies, the alias of the path under the
    first such rule is a key, and holds a source file that has this
    alias. *)
Theorem source_paths_and_aliases_are_keys
  (sources : JsObject.t SourceFile) (remappings : list Remapping) :
  exists necessary out,
    resolveNecessaryImports (Notions.resolverOf sources remappings)
    = Some (necessary, out)
    /\ forall p f,
        In (p, f) sources ->
        match find (fun mapping => JsString.startsWith p (resolved mapping)) remappings with
        | None =>
            p <> "__proto__" ->
            exists v,
              get (allAvailableFiles (Notions.resolverOf sources remappings)) p = Some v
              /\ get necessary p = Some (own v)
        | Some m =>
            let remappedPath := JsString.replace p (resolved m) (original m) in
            remappedPath <> "__proto__" ->
            exists q g m',
              In (q, g) sources
              /\ find (fun mapping => JsString.startsWith q (resolved mapping)) remappings
                 = Some m'
              /\ remappedPath = JsString.replace q (resolved m') (original m')
              /\ get necessary remappedPath = Some (own g)
        end.
Proof.
  destruct (ClosureResults.traversal_result (Notions.resolverOf sources remappings))
    as [necessary [out [Hres [Hin _]]]].
  exists necessary, out. split; [exact Hres|]. intros p f Hpf.
  assert (Hseed : forall k,
             In k (initialQueue (Notions.resolverOf sources remappings)) ->
             k <> "__proto__" ->
             exists v,
               get (allAvailableFiles (Notions.resolverOf sources remappings)) k = Some v
               /\ get necessary k = Some (own v)).
  { intros k Hk Hne.
    pose proof (ClosureResults.initialQueue_available _ _ Hk) as Hav.
    apply ObjectFacts.has_get in Hav as [v Hv]. exists v. split; [exact Hv|].
    rewrite (Hin k (Spec.reach_seed _ k (proj1 (SeedFacts.initialQueue_seed _ k) Hk)) Hne).
    now apply ObjectFacts.read_own. }
  assert (Hp : In p (keys sources)).
  { unfold keys. change p with (fst (p, f)). now apply in_map. }
  destruct (find (fun mapping => JsString.startsWith p (resolved mapping)) remappings)
    as [m|] eqn:Hfind.
  - cbv zeta. intros Hne.
    pose proof (proj1 (proj2 (createRemappedSourceFiles_entries remappings sources))
                  p f m Hpf Hfind Hne) as Hhas.
    destruct (Hseed (JsString.replace p (resolved m) (original m))) as [v [Hv Hn]];
      [|exact Hne|].
    { unfold initialQueue. apply in_app_iff. left.
      cbn [Notions.resolverOf remappedSourceFiles]. now apply ObjectFacts.has_keys. }
    apply ObjectFacts.has_get in Hhas as [g Hg].
    assert (E : v = g).
    { unfold allAvailableFiles in Hv.
      cbn [Notions.resolverOf remappedSourceFiles sourceFiles] in Hv.
      rewrite (get_spread2_right sources _ _ g
                 (SubmapClaims.createRemappedSourceFiles_NoDup sources remappings) Hg)
        in Hv.
      congruence. }
    subst v.
    destruct (proj1 (createRemappedSourceFiles_entries remappings sources) _ _ Hg)
      as [q [m' [Hq [Hm' Ha]]]].
    exists q, g, m'. auto.
  - intros Hne. apply Hseed; [|exact Hne].
    unfold initialQueue. apply in_app_iff. right.
    cbn [Notions.resolverOf sourceFiles]. apply filter_In. split; [exact Hp|].
    apply negb_true_iff, not_true_iff_false. intros Ht.
    unfold hasRemappedVersion in Ht. apply existsb_exists in Ht as [k [_ Ht]].
    apply existsb_exists in Ht as [m [Hm Ht]].
    apply andb_true_iff in Ht as [Hs _].
    unfold Notions.resolverOf in Hm. simpl in Hm.
    pose proof (find_none _ _ Hfind m Hm) as Hn. cbv beta in Hn. congruence.
Qed.

End RemappedFilesFacts.

Module ResolveSoundness.
Import JsObject FilfoxVerifier.

(** X9.  A resolved import is a path together with the very value that the
    lookup [availableFiles[path]] yields, and nothing is written on the
    console; in particular an import at which that lookup yields a value
    resolves to itself.  The value is a source file, or a member inherited
    from [Object.prototype]: the import "constructor" resolves to itself
    in files that have no such key. *)
Theorem resolveImportPath_sound
  (importPath currentFile : string) (remappings : list Remapping)
  (availableFiles : JsObject.t SourceFile) :
  (forall p c,
      fst (resolveImportPath importPath currentFile remappings availableFiles)
      = Some (p, c) ->
      read availableFiles p = Some c
      /\ snd (resolveImportPath importPath currentFile remappings availableFiles) = [])
  /\ (forall c, read availableFiles importPath = Some c ->
                resolveImportPath importPath currentFile remappings availableFiles
                = (Some (importPath, c), []))
  /\ resolveImportPath "constructor" "A.sol" [] Examples.constructorFiles
     = (Some ("constructor", inherited "constructor"), []).
Proof.
  split; [|split; [|vm_compute; reflexivity]].
  - intros p c H.
    destruct (ResolveFacts.resolveImportPath_cases importPath currentFile remappings
                availableFiles) as [[q [d E]]|E]; [|rewrite E in H; discriminate H].
    split; [|now rewrite E].
    eapply ResolveFacts.resolveImportPath_available. exact H.
  - intros c H. unfold resolveImportPath. now rewrite H.
Qed.

Lemma resolveImportPath_sound_witness :
  read Examples.abcFiles "B.sol" = Some (own (mkSourceFile "contract B {}"))
  /\ snd (resolveImportPath "./B.sol" "A.sol" [] Examples.abcFiles) = [].
Proof.
  apply (proj1 (resolveImportPath_sound "./B.sol" "A.sol" [] Examples.abcFiles)
           "B.sol" (own (mkSourceFile "contract B {}"))).
  reflexivity.
Defined.

End ResolveSoundness.

(** ** The shape of the closure *)

Module TraversalExtras.
Import JsObject FilfoxVerifier Spec.

Lemma loop_preserves (P : state -> Prop) (resolver : ImportResolver)
  (all : JsObject.t SourceFile) :
  (forall cur rest st, queue st = cur :: rest -> P st -> P (visit resolver all cur rest st)) ->
  forall fuel st st', P st -> loop fuel resolver all st = Some st' -> P st'.
Proof.
  intros Hstep. induction fuel as [|fuel IH]; intros st st' HP Hloop; simpl in Hloop.
  - destruct (queue st); [|discriminate]. now injection Hloop as <-.
  - destruct (queue st) as [|cur rest] eqn:Hq; [now injection Hloop as <-|].
    eapply IH; [|exact Hloop]. now apply Hstep.
Qed.

Lemma visit_keys_NoDup (resolver : ImportResolver) (all : JsObject.t SourceFile)
  (cur : string) (rest : list string) (st : state) :
  NoDup (keys (necessaryFiles st)) ->
  NoDup (keys (necessaryFiles (visit resolver all cur rest st))).
Proof.
  intros H. unfold visit. destruct (JsString.mem cur (processed st)); [exact H|].
  destruct (read all cur) as [file|]; [|exact H].
  destruct (fold_left _ _ _) as [q c]. simpl. now apply SubmapClaims.assign_keys_NoDup.
Qed.

Lemma visit_console (resolver : ImportResolver) (cur : string) (rest : list string)
  (st : state) :
  let all := allAvailableFiles resolver in
  let P := fun st : state =>
             forall ev, In ev (console st) ->
                        exists f file i,
                          In f (processed st)
                          /\ read all f = Some file
                          /\ In i (importsOf file)
                          /\ In ev (snd (resolveImportPath i f (remappings resolver) all)) in
  P st -> P (visit resolver all cur rest st).
Proof.
  intros all P HP. unfold P, visit in *.
  destruct (JsString.mem cur (processed st)); [exact HP|].
  destruct (read all cur) as [file|] eqn:Hget.
  - pose proof (ClosureFacts.enqueue_fold resolver cur (processed st ++ [cur])
                  (importsOf file) rest (console st)) as [_ [Hc _]].
    fold all in Hc.
    destruct (fold_left _ (importsOf file) (rest, console st)) as [q c].
    simpl in Hc |- *. intros ev Hev. apply Hc in Hev. destruct Hev as [Hev|[i [Hi Hev]]].
    + destruct (HP ev Hev) as [f [file' [j [Hf H]]]].
      exists f, file', j. split; [apply in_app_iff; now left | exact H].
    + exists cur, file, i. split; [apply in_app_iff; right; now left | auto].
  - simpl. intros ev Hev. destruct (HP ev Hev) as [f [file' [j [Hf H]]]].
    exists f, file', j. split; [apply in_app_iff; now left | exact H].
Qed.

(** What the traversal returns besides the closure itself. *)
Lemma traversal_shape (resolver : ImportResolver) :
  exists necessary out,
    resolveNecessaryImports resolver = Some (necessary, out)
    /\ NoDup (keys necessary)
    /\ forall ev, In ev out ->
                  exists f v i,
                    get (allAvailableFiles resolver) f = Some v
                    /\ (f <> "__proto__" -> get necessary f = Some (own v))
                    /\ In i (extractImports (content v))
                    /\ resolveImportPath i f (remappings resolver)
                         (allAvailableFiles resolver) = (None, [ev])
                    /\ ev = warn_unresolved i f.
Proof.
  unfold resolveNecessaryImports.
  destruct (ClosureFacts.loop_total resolver
              (work (allAvailableFiles resolver) (initialState resolver))
              (initialState resolver) (le_n _)) as [st Hloop].
  rewrite Hloop. exists (necessaryFiles st), (console st).
  split; [reflexivity|]. split.
  - apply (loop_preserves (fun st => NoDup (keys (necessaryFiles st))) resolver
             (allAvailableFiles resolver)
             (fun cur rest st _ => visit_keys_NoDup resolver _ cur rest st)
             (work (allAvailableFiles resolver) (initialState resolver))
             (initialState resolver) st); [apply NoDup_nil | exact Hloop].
  - destruct (ClosureFacts.invariant_loop resolver _ _ _
                (ClosureFacts.invariant_initial resolver) Hloop) as [[_ Hfiles _ _ _] _].
    assert (Hcon : forall ev, In ev (console st) ->
                     exists f file i,
                       In f (processed st)
                       /\ read (allAvailableFiles resolver) f = Some file
                       /\ In i (importsOf file)
                       /\ In ev (snd (resolveImportPath i f (remappings resolver)
                                        (allAvailableFiles resolver)))).
    { apply (loop_preserves _ resolver (allAvailableFiles resolver)
               (fun cur rest st _ => visit_console resolver cur rest st)
               (work (allAvailableFiles resolver) (initialState resolver))
               (initialState resolver) st); [intros ev [] | exact Hloop]. }
    intros ev Hev.
    destruct (Hcon ev Hev) as [f [file [i [Hf [Hread [Hi Hin]]]]]].
    pose proof Hread as Hcases. apply ObjectFacts.read_cases in Hcases.
    destruct Hcases as [[v [-> Hget]]|[-> _]];
      [|rewrite ResolveFacts.importsOf_inherited in Hi; destruct Hi].
    exists f, v, i. split; [exact Hget|]. split.
    { intros Hne. rewrite Hfiles. apply StringFacts.mem_In in Hf. rewrite Hf.
      apply String.eqb_neq in Hne. now rewrite Hne. }
    split; [exact Hi|].
    destruct (ResolveFacts.resolveImportPath_cases i f (remappings resolver)
                (allAvailableFiles resolver)) as [[p [c E]]|E];
      rewrite E in Hin; simpl in Hin; [destruct Hin|].
    destruct Hin as [<-|[]]. split; [exact E | reflexivity].
Qed.

(** X10.  The result of [resolveNecessaryImports] lists no path twice, and
    each of its keys is a key of the available files or the name of a member
    of [Object.prototype]: it has at most as many entries as there are
    available files and such names.  The available files alone are no
    bound: for the one file that imports "constructor" the result has two
    entries. *)
Theorem closure_lists_each_path_once (resolver : ImportResolver) :
  (exists necessary out,
      resolveNecessaryImports resolver = Some (necessary, out)
      /\ NoDup (keys necessary)
      /\ (forall k, In k (keys necessary) ->
                    In k (keys (allAvailableFiles resolver))
                    \/ In k objectPrototypeNames)
      /\ List.length necessary
         <= List.length (allAvailableFiles resolver) + List.length (@objectPrototypeNames))
  /\ (exists necessary out,
         resolveNecessaryImports Examples.constructorResolver = Some (necessary, out)
         /\ List.length necessary = 2
         /\ List.length (allAvailableFiles Examples.constructorResolver) = 1).
Proof.
  split; [|do 2 eexists; split; [vm_compute; reflexivity | split; reflexivity]].
  destruct (traversal_shape resolver) as [necessary [out [Hres [Hnd _]]]].
  exists necessary, out. split; [exact Hres|]. split; [exact Hnd|].
  destruct (ClosureResults.traversal_result resolver)
    as [necessary' [out' [Hres' [Hin [Hreach _]]]]].
  rewrite Hres in Hres'. injection Hres' as <- <-.
  assert (Hkeys : forall k, In k (keys necessary) ->
                            In k (keys (allAvailableFiles resolver))
                            \/ In k objectPrototypeNames).
  { intros k Hk. apply ObjectFacts.has_keys in Hk. apply ObjectFacts.has_get in Hk as [v Hv].
    destruct (Hreach k v Hv) as [_ [_ Hread]].
    apply ObjectFacts.read_cases in Hread. destruct Hread as [[w [_ Hw]]|[_ [_ Hw]]].
    - left. apply ObjectFacts.has_keys, ObjectFacts.has_get. now exists w.
    - right. unfold isObjectPrototypeName in Hw.
      apply existsb_exists in Hw as [x [Hx Hw]]. apply String.eqb_eq in Hw. now subst. }
  split; [exact Hkeys|].
  rewrite <- (length_map fst necessary), <- (length_map fst (allAvailableFiles resolver)).
  rewrite <- length_app.
  apply NoDup_incl_length; [exact Hnd|].
  intros k Hk. apply in_app_iff. now apply Hkeys.
Qed.

(** X11.  Every line [resolveNecessaryImports] writes on the console is the
    warning for an import of an available file that the traversal visited
    and that [resolveImportPath] could not resolve; it names that import and
    that file, which is returned unless its path is [__proto__]. *)
Theorem closure_warnings_are_unresolved_imports (resolver : ImportResolver) :
  exists necessary out,
    resolveNecessaryImports resolver = Some (necessary, out)
    /\ forall ev, In ev out ->
                  exists f v i,
                    get (allAvailableFiles resolver) f = Some v
                    /\ (f <> "__proto__" -> get necessary f = Some (own v))
                    /\ In i (extractImports (content v))
                    /\ resolveImportPath i f (remappings resolver)
                         (allAvailableFiles resolver) = (None, [ev])
                    /\ ev = warn_unresolved i f.
Proof.
  destruct (traversal_shape resolver) as [necessary [out [Hres [_ H]]]].
  exists necessary, out. auto.
Qed.

End TraversalExtras.

(** ** The command *)

Module CommandFacts.
Import JsString FilfoxVerifier Command Notions.

Lemma split_before_after (sep : ascii) (s : string) :
  split sep s
  = if includes s (String sep "")
    then before sep s :: split sep (after sep s)
    else [s].
Proof.
  induction s as [|c s IH]; [reflexivity|].
  rewrite StringFacts.includes_cons. cbn [split before after].
  destruct (Ascii.eqb c sep); [reflexivity|]. cbn [orb].
  rewrite IH. now destruct (includes s (String sep "")).
Qed.

Lemma split_head_before (sep : ascii) (s : string) :
  exists ps, split sep s = before sep s :: ps.
Proof.
  induction s as [|c s [ps IH]]; cbn [split before].
  - now exists [].
  - destruct (Ascii.eqb c sep); [eexists; reflexivity|].
    rewrite IH. eexists. reflexivity.
Qed.

(** X12.  The contract argument is accepted exactly when it has a colon, a
    non-empty text before the first colon and a non-empty text between the
    first colon and the second one (or the end); these two texts are the
    path and the name, and what follows a second colon is dropped.  Every
    other argument raises the format error. *)
Theorem parseContractArgument_format (contract : string) :
  parseContractArgument contract
  = if includes contract ":"
       && negb (String.eqb (before ":" contract) "")
       && negb (String.eqb (before ":" (after ":" contract)) "")
    then Return (before ":" contract, before ":" (after ":" contract))
    else Throw (Error "Contract must be in format src/Contract.sol:ContractName").
Proof.
  unfold parseContractArgument. rewrite split_before_after.
  destruct (includes contract ":") eqn:Hc; cbn [andb].
  - destruct (split_head_before ":" (after ":" contract)) as [ps ->].
    destruct (String.eqb (before ":" contract) "");
      destruct (String.eqb (before ":" (after ":" contract)) ""); reflexivity.
  - reflexivity.
Qed.




(** X14.  When a statement of the [try] block of [verify] throws, the
    command shows the outcome as the unknown verification error: [verify]
    returns the object with error code 8, for which
    [handleVerificationResult] has no case of its own. *)
Theorem caught_exception_is_shown_as_unknown_error
  (fetch : string -> RequestBody -> fetch_outcome) (self : FilfoxVerifier.t)
  (request : VerificationRequest) (chainId : Z) (address : string)
  (e : js_error) (out : list console_event) :
  verifyTry fetch self request = Some (Throw e, out) ->
  exists result out',
    verify fetch self request = Some (Return result, out')
    /\ handleVerificationResult result chainId address
       = Return [fail text_unknown_error].
Proof.
  intros H. unfold verify. rewrite H. eexists. eexists. split; reflexivity.
Qed.

Lemma caught_exception_is_shown_as_unknown_error_witness :
  exists result out',
    verify (fun _ _ => FetchRejected (TypeError "fetch failed"))
      (mkVerifier "https://filfox.info/api/v1/tools/verifyContract" 314)
      (Examples.sampleRequest (Examples.metadataWith []))
    = Some (Return result, out')
    /\ handleVerificationResult result 314 "0x01" = Return [fail text_unknown_error].
Proof.
  apply (caught_exception_is_shown_as_unknown_error
           (fun _ _ => FetchRejected (TypeError "fetch failed"))
           (mkVerifier "https://filfox.info/api/v1/tools/verifyContract" 314)
           (Examples.sampleRequest (Examples.metadataWith []))
           314 "0x01" (TypeError "fetch failed") []).
  vm_compute. reflexivity.
Defined.

End CommandFacts.

(** ** Relative imports *)

Module RelativeImportFacts.
Import JsString Path FilfoxVerifier Notions.

Lemma append_assoc (a b c : string) : ((a ++ b) ++ c = a ++ (b ++ c))%string.
Proof. induction a as [|x a IH]; simpl; [reflexivity | now rewrite IH]. Qed.

Lemma chars_app (a b : string) :
  list_ascii_of_string (a ++ b) = list_ascii_of_string a ++ list_ascii_of_string b.
Proof. induction a as [|c a IH]; simpl; [reflexivity | now rewrite IH]. Qed.

Lemma slashFree_chars (s : string) :
  includes s "/" = false -> Forall (fun c => isSlash c = false) (list_ascii_of_string s).
Proof.
  induction s as [|c s IH]; intros H; [constructor|].
  rewrite StringFacts.includes_cons in H. apply orb_false_iff in H as [Hc Hs].
  constructor; [exact Hc | now apply IH].
Qed.

Lemma split_nonempty (sep : ascii) (s : string) : split sep s <> [].
Proof.
  destruct (CommandFacts.split_head_before sep s) as [ps ->]. discriminate.
Qed.

Lemma split_app (sep : ascii) (a b : string) :
  split sep (a ++ String sep b) = split sep a ++ split sep b.
Proof.
  induction a as [|c a IH]; cbn [append split].
  - now rewrite Ascii.eqb_refl.
  - destruct (Ascii.eqb c sep); [now rewrite IH|].
    rewrite IH. destruct (split sep a) as [|p ps] eqn:E; [|reflexivity].
    destruct (split_nonempty sep a E).
Qed.

Lemma split_slashFree (s : string) : includes s "/" = false -> split slash s = [s].
Proof.
  intros H. rewrite CommandFacts.split_before_after. unfold slash.
  now rewrite H.
Qed.

Lemma joinSegments_cons (s : string) (l : list string) :
  l <> [] -> joinSegments (s :: l) = (s ++ "/" ++ joinSegments l)%string.
Proof. destruct l; [congruence | reflexivity]. Qed.

Lemma joinSegments_app (a b : list string) :
  a <> [] -> b <> [] ->
  joinSegments (a ++ b) = (joinSegments a ++ "/" ++ joinSegments b)%string.
Proof.
  induction a as [|s a IH]; intros Ha Hb; [congruence|].
  destruct a as [|t a].
  - cbn [app]. now rewrite joinSegments_cons.
  - change ((s :: t :: a) ++ b) with (s :: ((t :: a) ++ b)).
    rewrite joinSegments_cons by discriminate.
    rewrite IH by (discriminate || assumption).
    rewrite (joinSegments_cons s (t :: a)) by discriminate.
    now rewrite !append_assoc.
Qed.

Lemma split_joinSegments (l : list string) :
  l <> [] -> Forall (fun s => includes s "/" = false) l ->
  split slash (joinSegments l) = l.
Proof.
  induction l as [|s l IH]; intros Hne Hall; [congruence|].
  inversion Hall as [|? ? Hs Hl]; subst.
  destruct l as [|t l]; [now apply split_slashFree|].
  rewrite joinSegments_cons by discriminate.
  change (s ++ "/" ++ joinSegments (t :: l))%string
    with (s ++ String slash (joinSegments (t :: l)))%string.
  rewrite split_app, (split_slashFree s Hs), IH; [reflexivity | discriminate | exact Hl].
Qed.

Lemma plain_slashFree (l : list string) :
  Forall plainSegment l -> Forall (fun s => includes s "/" = false) l.
Proof. apply Forall_impl. intros s [_ [_ [_ H]]]. exact H. Qed.

(** Plain segments are kept by [normalizeString], in their order. *)
Lemma normalize_fold_plain (b : bool) (l acc : list string) :
  Forall plainSegment l -> fold_left (normalizeStep b) l acc = rev l ++ acc.
Proof.
  revert acc. induction l as [|s l IH]; intros acc H; [reflexivity|].
  inversion H as [|? ? [H1 [H2 [H3 _]]] Hl]; subst. cbn [fold_left rev].
  rewrite IH by exact Hl. rewrite <- app_assoc. cbn [app]. f_equal.
  unfold normalizeStep.
  apply String.eqb_neq in H1, H2, H3. now rewrite H1, H2, H3.
Qed.

Lemma joinSegments_head (c : ascii) (s : string) (l : list string) :
  exists t, joinSegments (String c s :: l) = String c t.
Proof.
  destruct l as [|u l]; [now exists s|].
  rewrite joinSegments_cons by discriminate. cbn [append]. eexists. reflexivity.
Qed.

Lemma endsWithSlash_app (a b : string) :
  b <> "" -> endsWithSlash (a ++ b) = endsWithSlash b.
Proof.
  intros Hb. unfold endsWithSlash. rewrite chars_app, rev_app_distr.
  destruct b as [|c b]; [congruence|].
  cbn [list_ascii_of_string rev].
  destruct (rev (list_ascii_of_string b)) as [|d r]; reflexivity.
Qed.

Lemma endsWithSlash_slashFree (s : string) :
  includes s "/" = false -> endsWithSlash s = false.
Proof.
  intros H. apply slashFree_chars in H. unfold endsWithSlash.
  apply Forall_rev in H. destruct (rev (list_ascii_of_string s)) as [|c r]; [reflexivity|].
  now inversion H.
Qed.

Lemma endsWithSlash_joinSegments (l : list string) (s : string) :
  s <> "" -> includes s "/" = false -> endsWithSlash (joinSegments (l ++ [s])) = false.
Proof.
  intros Hs Hf. destruct l as [|t l]; [now apply endsWithSlash_slashFree|].
  rewrite joinSegments_app by discriminate. cbn [joinSegments].
  rewrite <- append_assoc, endsWithSlash_app by exact Hs.
  now apply endsWithSlash_slashFree.
Qed.

Lemma normalize_relative (p : string) (c : ascii) (u : string) :
  p = String c u -> isSlash c = false -> endsWithSlash p = false ->
  normalizeString p true <> "" ->
  normalize p = normalizeString p true.
Proof.
  intros Hp Hc Hend Hne. unfold normalize. rewrite Hend.
  destruct p as [|c' u']; [discriminate|]. injection Hp as -> ->.
  rewrite Hc. cbn [negb].
  destruct (normalizeString (String c u) true); [congruence | reflexivity].
Qed.

(** [normalize] on a relative path with no trailing separator: the
    segments that [normalizeString] keeps, joined. *)
Lemma normalize_segments (l : list string) (s : string) (kept : list string) :
  Forall (fun s => includes s "/" = false) (l ++ [s]) ->
  (match l ++ [s] with t :: _ => t <> "" | [] => True end) ->
  s <> "" ->
  rev (fold_left (normalizeStep true) (l ++ [s]) []) = kept ->
  joinSegments kept <> "" ->
  normalize (joinSegments (l ++ [s])) = joinSegments kept.
Proof.
  intros Hall Hhead Hs Hkept Hne.
  assert (Hls : l ++ [s] <> []) by (destruct l; discriminate).
  assert (Hfs : includes s "/" = false).
  { apply Forall_app in Hall as [_ H]. now inversion H. }
  assert (Hns : normalizeString (joinSegments (l ++ [s])) true = joinSegments kept).
  { unfold normalizeString. now rewrite split_joinSegments, Hkept. }
  assert (Hch : exists c u, joinSegments (l ++ [s]) = String c u /\ isSlash c = false).
  { destruct (l ++ [s]) as [|t rest]; [congruence|].
    destruct t as [|c t]; [congruence|].
    destruct (joinSegments_head c t rest) as [u Hu]. exists c, u. split; [exact Hu|].
    inversion Hall as [|? ? Ht _]; subst.
    rewrite StringFacts.includes_cons in Ht. now apply orb_false_iff in Ht as [Ht _]. }
  destruct Hch as [c [u [Hu Hc]]].
  rewrite (normalize_relative _ c u Hu Hc (endsWithSlash_joinSegments l s Hs Hfs));
    rewrite Hns; [reflexivity | exact Hne].
Qed.

Lemma joinSegments_plain_nonempty (l : list string) :
  l <> [] -> Forall plainSegment l -> joinSegments l <> "".
Proof.
  intros Hne Hall. destruct l as [|s l]; [congruence|].
  inversion Hall as [|? ? [Hs _] _]; subst.
  destruct s as [|c s]; [congruence|].
  destruct (joinSegments_head c s l) as [t ->]. discriminate.
Qed.

(** [path.dirname] of a path of plain segments. *)
Lemma dirname_plain (dirs : list string) (base : string) :
  Forall plainSegment dirs -> plainSegment base ->
  dirname (joinSegments (dirs ++ [base]))
  = match dirs with [] => "." | _ => joinSegments dirs end.
Proof.
  intros Hdirs [Hb [_ [_ Hbf]]].
  assert (Hdrop : forall (l : list ascii) (r : list ascii),
             Forall (fun c => isSlash c = false) l ->
             dropWhile (fun c => negb (isSlash c)) (l ++ r)
             = dropWhile (fun c => negb (isSlash c)) r).
  { induction l as [|c l IH]; intros r H; [reflexivity|].
    inversion H as [|? ? Hc Hl]; subst. cbn [app dropWhile]. rewrite Hc. cbn [negb].
    now apply IH. }
  assert (Hkeep : forall l : list ascii,
             Forall (fun c => isSlash c = false) l -> dropWhile isSlash l = l).
  { intros [|c l] H; [reflexivity|]. inversion H as [|? ? Hc _]; subst.
    cbn [dropWhile]. now rewrite Hc. }
  pose proof (slashFree_chars base Hbf) as Hbase.
  destruct dirs as [|d dirs].
  - cbn [app joinSegments]. unfold dirname.
    destruct base as [|c0 cs]; [congruence|]. cbn [list_ascii_of_string].
    inversion Hbase as [|? ? Hc0 Hcs]; subst. rewrite Hc0.
    apply Forall_rev in Hcs. rewrite (Hkeep _ Hcs).
    rewrite <- (app_nil_r (rev (list_ascii_of_string cs))), (Hdrop _ [] Hcs).
    reflexivity.
  - rewrite joinSegments_app by discriminate.
    change (joinSegments [base]) with base.
    inversion Hdirs as [|? ? [Hd [_ [_ Hdf]]] _]; subst.
    destruct d as [|c0 d]; [congruence|].
    destruct (joinSegments_head c0 d dirs) as [t Ht]. rewrite Ht.
    unfold dirname. cbn [append list_ascii_of_string].
    assert (Hc0 : isSlash c0 = false).
    { rewrite StringFacts.includes_cons in Hdf. now apply orb_false_iff in Hdf as [H _]. }
    rewrite Hc0. cbn [andb].
    change ("/" ++ base)%string with (String slash base).
    rewrite chars_app. cbn [list_ascii_of_string]. rewrite rev_app_distr.
    cbn [rev]. rewrite <- app_assoc. cbn [app].
    assert (Hrb : Forall (fun c => isSlash c = false) (rev (list_ascii_of_string base)))
      by now apply Forall_rev.
    assert (Hk : dropWhile isSlash (rev (list_ascii_of_string base)
                                    ++ "/"%char :: rev (list_ascii_of_string t))
                 = rev (list_ascii_of_string base)
                   ++ "/"%char :: rev (list_ascii_of_string t)).
    { destruct (rev (list_ascii_of_string base)) as [|c r] eqn:Er.
      - destruct base as [|b0 bs]; [congruence|]. cbn [list_ascii_of_string rev] in Er.
        destruct (rev (list_ascii_of_string bs)); discriminate Er.
      - inversion Hrb as [|? ? Hc _]; subst. cbn [app dropWhile]. now rewrite Hc. }
    rewrite Hk, (Hdrop _ _ Hrb). cbn [dropWhile].
    change (isSlash "/"%char) with true. cbn [negb].
    rewrite rev_involutive.
    change (c0 :: list_ascii_of_string t) with (list_ascii_of_string (String c0 t)).
    apply string_of_list_ascii_of_string.
Qed.

Lemma join_nonempty (a b : string) :
  a <> "" -> b <> "" -> join a b = normalize (a ++ "/" ++ b).
Proof. destruct a, b; congruence || reflexivity. Qed.

(** The import [first/rest...] resolved from a file whose directory has the
    segments [dirsegs]: both paths joined and normalized. *)
Lemma resolve_by_segments
  (currentFile : string) (dirsegs : list string) (first : string)
  (fs : list string) (last : string) (kept : list string) :
  dirname currentFile = joinSegments dirsegs ->
  dirsegs <> [] ->
  (match dirsegs with t :: _ => t <> "" | [] => True end) ->
  Forall (fun s => includes s "/" = false) (dirsegs ++ first :: fs ++ [last]) ->
  first <> "" -> last <> "" ->
  rev (fold_left (normalizeStep true) (dirsegs ++ first :: fs ++ [last]) []) = kept ++ [last] ->
  Forall plainSegment (kept ++ [last]) ->
  resolveRelativeImport (joinSegments (first :: fs ++ [last])) currentFile
  = joinSegments (kept ++ [last]).
Proof.
  intros Hdir Hne Hhead Hall Hfirst Hlast Hfold Hplain.
  unfold resolveRelativeImport. rewrite Hdir.
  assert (Hk : joinSegments (kept ++ [last]) <> "").
  { apply joinSegments_plain_nonempty; [destruct kept; discriminate | exact Hplain]. }
  assert (Himp : joinSegments (first :: fs ++ [last]) <> "").
  { destruct first as [|c f]; [congruence|].
    destruct (joinSegments_head c f (fs ++ [last])) as [t ->]. discriminate. }
  assert (Hd : joinSegments dirsegs <> "").
  { destruct dirsegs as [|t r]; [congruence|]. destruct t as [|c t]; [congruence|].
    destruct (joinSegments_head c t r) as [u ->]. discriminate. }
  rewrite (join_nonempty _ _ Hd Himp).
  rewrite <- joinSegments_app by (assumption || discriminate).
  assert (E : dirsegs ++ first :: fs ++ [last] = (dirsegs ++ first :: fs) ++ [last]).
  { rewrite <- app_assoc. reflexivity. }
  assert (N1 : normalize (joinSegments (dirsegs ++ first :: fs ++ [last]))
               = joinSegments (kept ++ [last])).
  { rewrite E. apply normalize_segments; rewrite <- ?E; try assumption.
    destruct dirsegs; [congruence | exact Hhead]. }
  rewrite N1.
  apply normalize_segments; try assumption.
  - now apply plain_slashFree.
  - destruct (kept ++ [last]) as [|t r] eqn:Ek; [exact I|].
    inversion Hplain as [|? ? [Ht _] _]; subst. exact Ht.
  - rewrite normalize_fold_plain by exact Hplain.
    now rewrite app_nil_r, rev_involutive.
Qed.

(** X15.  A relative import resolves against the directory of the current
    file: from a file [dirs/base], the import [./f] resolves to [dirs/f] and,
    when [dirs] ends with the segment [d], the import [../f] resolves to the
    path with [d] removed.  Here every segment is plain: not empty, no dots
    segment and no separator inside. *)
Theorem resolveRelativeImport_plain
  (dirs : list string) (base : string) (fsegs : list string) :
  Forall plainSegment dirs -> plainSegment base ->
  Forall plainSegment fsegs -> fsegs <> [] ->
  resolveRelativeImport ("./" ++ joinSegments fsegs) (joinSegments (dirs ++ [base]))
  = joinSegments (dirs ++ fsegs)
  /\ (forall ds d,
         dirs = ds ++ [d] ->
         resolveRelativeImport ("../" ++ joinSegments fsegs)
           (joinSegments (dirs ++ [base]))
         = joinSegments (ds ++ fsegs)).
Proof.
  intros Hdirs Hbase Hfsegs Hne.
  destruct (exists_last Hne) as [fs [last ->]].
  pose proof (dirname_plain dirs base Hdirs Hbase) as Hdir.
  assert (Hf : Forall plainSegment fs /\ plainSegment last).
  { apply Forall_app in Hfsegs as [H1 H2]. split; [exact H1 | now inversion H2]. }
  destruct Hf as [Hfs Hlastp].
  assert (Hlast : last <> "") by (destruct Hlastp as [H _]; exact H).
  assert (Hdot : forall acc, normalizeStep true acc "." = acc) by reflexivity.
  split.
  - change ("./" ++ joinSegments (fs ++ [last]))%string
      with ("." ++ "/" ++ joinSegments (fs ++ [last]))%string.
    rewrite <- (joinSegments_cons "." (fs ++ [last])) by (destruct fs; discriminate).
    rewrite app_assoc.
    destruct dirs as [|d dirs'].
    + apply (resolve_by_segments _ ["."] "." fs last fs); try assumption;
        try discriminate.
      * repeat constructor. apply plain_slashFree. apply Forall_app. split; [exact Hfs|].
        now constructor.
      * cbn [app fold_left]. rewrite !Hdot.
        rewrite normalize_fold_plain, app_nil_r, rev_involutive; [reflexivity|].
        apply Forall_app. split; [exact Hfs | now constructor].
    + apply (resolve_by_segments _ (d :: dirs') "." fs last ((d :: dirs') ++ fs));
        try assumption; try discriminate.
      * inversion Hdirs as [|? ? [Hd _] _]; subst. exact Hd.
      * apply Forall_app. split; [now apply plain_slashFree|].
        constructor; [reflexivity|]. apply plain_slashFree, Forall_app.
        split; [exact Hfs | now constructor].
      * rewrite fold_left_app, (normalize_fold_plain true (d :: dirs') [] Hdirs).
        cbn [fold_left]. rewrite Hdot.
        rewrite normalize_fold_plain by (apply Forall_app; split; [exact Hfs | now constructor]).
        rewrite rev_app_distr, rev_involutive, app_nil_r, rev_involutive.
        now rewrite <- app_assoc.
      * rewrite <- app_assoc. apply Forall_app. split; [exact Hdirs|].
        apply Forall_app. split; [exact Hfs | now constructor].
  - intros ds d ->.
    change ("../" ++ joinSegments (fs ++ [last]))%string
      with (".." ++ "/" ++ joinSegments (fs ++ [last]))%string.
    rewrite <- (joinSegments_cons ".." (fs ++ [last])) by (destruct fs; discriminate).
    rewrite app_assoc.
    assert (Hds : Forall plainSegment ds /\ plainSegment d).
    { apply Forall_app in Hdirs as [H1 H2]. split; [exact H1 | now inversion H2]. }
    destruct Hds as [Hds Hd].
    assert (Hdirs' : ds ++ [d] <> []) by (destruct ds; discriminate).
    destruct (ds ++ [d]) as [|t r] eqn:Edirs; [congruence|].
    apply (resolve_by_segments _ (t :: r) ".." fs last (ds ++ fs));
      try assumption; try discriminate.
    + inversion Hdirs as [|? ? [Ht _] _]; subst. exact Ht.
    + apply Forall_app. split; [now apply plain_slashFree|].
      constructor; [reflexivity|]. apply plain_slashFree, Forall_app.
      split; [exact Hfs | now constructor].
    + rewrite <- Edirs.
      rewrite fold_left_app, fold_left_app, (normalize_fold_plain true ds [] Hds).
      cbn [fold_left]. rewrite app_nil_r.
      assert (Hpush : normalizeStep true (rev ds) d = d :: rev ds).
      { unfold normalizeStep. destruct Hd as [H1 [H2 [H3 _]]].
        apply String.eqb_neq in H1, H2, H3. now rewrite H1, H2, H3. }
      rewrite Hpush.
      assert (Hpop : normalizeStep true (d :: rev ds) ".." = rev ds).
      { unfold normalizeStep. cbn [String.eqb Ascii.eqb Bool.eqb andb orb].
        destruct Hd as [_ [_ [H3 _]]]. apply String.eqb_neq in H3. now rewrite H3. }
      rewrite Hpop.
      rewrite normalize_fold_plain by (apply Forall_app; split; [exact Hfs | now constructor]).
      rewrite rev_app_distr, rev_involutive, rev_involutive.
      now rewrite <- app_assoc.
    + rewrite <- app_assoc. apply Forall_app. split; [exact Hds|].
      apply Forall_app. split; [exact Hfs | now constructor].
Qed.

Lemma resolveRelativeImport_plain_witness :
  resolveRelativeImport "./Lib.sol" "src/a/Main.sol" = "src/a/Lib.sol"
  /\ resolveRelativeImport "../b/Helper.sol" "src/a/Main.sol" = "src/b/Helper.sol".
Proof.
  split.
  - apply (proj1 (resolveRelativeImport_plain ["src"; "a"] "Main.sol" ["Lib.sol"]
                    ltac:(repeat constructor; discriminate)
                    ltac:(repeat constructor; discriminate)
                    ltac:(repeat constructor; discriminate)
                    ltac:(discriminate))).
  - apply (proj2 (resolveRelativeImport_plain ["src"; "a"] "Main.sol" ["b"; "Helper.sol"]
                    ltac:(repeat constructor; discriminate)
                    ltac:(repeat constructor; discriminate)
                    ltac:(repeat constructor; discriminate)
                    ltac:(discriminate)) ["src"] "a" eq_refl).
Defined.

End RelativeImportFacts.

(** ** verify and the network *)

Module VerifyExtras.
Import FilfoxVerifier.

(** X16.  [verify] depends on the network only through the answer to a
    request at the address of the verifier: two networks that answer alike
    at that address give the same outcome, and when the remappings of the
    metadata cannot be read the outcome is the error code 8 whatever the
    network does. *)
Theorem verify_consults_only_baseUrl
  (fetch1 fetch2 : string -> RequestBody -> fetch_outcome) (self : t)
  (request : VerificationRequest) :
  ((forall body, fetch1 (baseUrl self) body = fetch2 (baseUrl self) body) ->
   verify fetch1 self request = verify fetch2 self request)
  /\ (forall e,
         (settings <- getProp (req_metadata request) "settings" ;;
          remappingsArray <- getProp settings "remappings" ;;
          parseRemappingsAny remappingsArray) = Throw e ->
         verify fetch1 self request
         = Some (Return errorCode8, [error_verification_failed e])).
Proof.
  split.
  - intros H. unfold verify, verifyTry.
    destruct (bind _ _) as [rules|e]; [|reflexivity].
    destruct (resolveNecessaryImports _) as [[necessary out]|]; [|reflexivity].
    now rewrite H.
  - intros e H. unfold verify, verifyTry. now rewrite H.
Qed.

Lemma verify_consults_only_baseUrl_witness :
  verify (fun url _ => if String.eqb url "https://filfox.info/api/v1/tools/verifyContract"
                       then JsonParsed (VObject [("errorCode", VNumber 0)])
                       else FetchRejected (TypeError "fetch failed"))
    (mkVerifier "https://filfox.info/api/v1/tools/verifyContract" 314)
    (Examples.sampleRequest (Examples.metadataWith []))
  = verify (fun _ _ => JsonParsed (VObject [("errorCode", VNumber 0)]))
      (mkVerifier "https://filfox.info/api/v1/tools/verifyContract" 314)
      (Examples.sampleRequest (Examples.metadataWith [])).
Proof.
  apply (proj1 (verify_consults_only_baseUrl _ _ _ _)).
  intros body. reflexivity.
Defined.

End VerifyExtras.

(** ** The plain import, there and back *)

Module RoundTripFacts.
Import JsString FilfoxVerifier Regex Notions.

Lemma quotes_drop (n : nat) (s : string) : quotes (drop n s) <= quotes s.
Proof.
  unfold quotes. revert s. induction n as [|n IH]; intros s; [destruct s; simpl; lia|].
  destruct s as [|c s]; [simpl; lia|]. cbn [drop list_ascii_of_string filter].
  specialize (IH s). destruct (isQuote c); simpl; lia.
Qed.

(** A match takes at least one quote from the text for each piece of the
    pattern that matches a quote. *)
Lemma matchHere_quotes (r : regex) (s : string) (cap : option string) (rest : string) :
  matchHere r s = Some (cap, rest) -> quoteNodes r + quotes rest <= quotes s.
Proof.
  revert s cap. induction r as [|nd r IH]; intros s cap H.
  - injection H as _ <-. simpl. lia.
  - destruct nd as [l|k|k|k|k]; cbn [matchHere] in H.
    + destruct (startsWith s l); [|discriminate].
      apply IH in H. pose proof (quotes_drop (String.length l) s). simpl. lia.
    + destruct s as [|c s]; [discriminate|].
      destruct (classMatches k c) eqn:Hk; [|discriminate].
      apply IH in H. unfold quotes in *. cbn [list_ascii_of_string filter].
      destruct k; cbn [quoteNodes classMatches] in *;
        destruct (isQuote c); simpl; (discriminate || lia).
    + apply CaptureFacts.tryCounts_some in H as [m [_ H]].
      apply IH in H. pose proof (quotes_drop m s). simpl. lia.
    + apply CaptureFacts.tryCounts_some in H as [m [_ H]].
      destruct (m =? 0)%nat; [discriminate|].
      apply IH in H. pose proof (quotes_drop m s). simpl. lia.
    + apply CaptureFacts.tryCounts_some in H as [m [_ H]].
      destruct (m =? 0)%nat; [discriminate|].
      destruct (matchHere r (drop m s)) as [[c' rest']|] eqn:E; [|discriminate].
      injection H as _ <-. apply IH in E. pose proof (quotes_drop m s). simpl. lia.
Qed.

Lemma execLoop_few_quotes (r : regex) (s : string) (pos skip : nat) :
  quotes s < quoteNodes r -> execLoop r s pos skip = [].
Proof.
  revert pos skip. induction s as [|c s IH]; intros pos skip H; [reflexivity|].
  assert (Hs : quotes s < quoteNodes r).
  { pose proof (quotes_drop 1 (String c s)) as Hd. cbn [drop] in Hd.
    destruct s; simpl in Hd |- *; lia. }
  cbn [execLoop]. destruct skip as [|k]; [|now apply IH].
  destruct (matchHere r (String c s)) as [[cap rest]|] eqn:E; [|now apply IH].
  apply matchHere_quotes in E. lia.
Qed.

Lemma execLoop_skip (r : regex) (a b : string) (pos : nat) :
  execLoop r (a ++ b) pos (String.length a) = execLoop r b (pos + String.length a) 0.
Proof.
  revert pos. induction a as [|c a IH]; intros pos.
  - simpl. now rewrite Nat.add_0_r.
  - cbn [append String.length execLoop]. rewrite IH. f_equal. lia.
Qed.

Lemma length_append (a b : string) :
  String.length (a ++ b) = String.length a + String.length b.
Proof. induction a as [|c a IH]; simpl; [reflexivity | now rewrite IH]. Qed.

Lemma quotes_append (a b : string) : quotes (a ++ b) = quotes a + quotes b.
Proof.
  unfold quotes. induction a as [|c a IH]; [reflexivity|].
  cbn [append list_ascii_of_string filter]. destruct (isQuote c); simpl; lia.
Qed.

Lemma quotes_none (p : string) :
  (forall c, In c (list_ascii_of_string p) -> isQuote c = false) -> quotes p = 0.
Proof.
  unfold quotes. induction p as [|c p IH]; intros H; [reflexivity|].
  cbn [list_ascii_of_string filter]. rewrite (H c (or_introl eq_refl)).
  apply IH. intros d Hd. apply H. now right.
Qed.

Lemma run_quote_free (p rest : string) :
  (forall c, In c (list_ascii_of_string p) -> isQuote c = false) ->
  run NotQuote (p ++ String doubleQuote rest) = String.length p.
Proof.
  induction p as [|c p IH]; intros H; [reflexivity|].
  cbn [append run classMatches String.length]. rewrite (H c (or_introl eq_refl)).
  cbn [negb]. f_equal. apply IH. intros d Hd. apply H. now right.
Qed.

Lemma take_append (a b : string) : take (String.length a) (a ++ b) = a.
Proof. induction a as [|c a IH]; [now destruct b | simpl; now rewrite IH]. Qed.

Lemma drop_append (a b : string) : drop (String.length a) (a ++ b) = b.
Proof. induction a as [|c a IH]; [reflexivity | exact IH]. Qed.

Lemma tryCounts_first {R} (n : nat) (f : nat -> option R) (x : R) :
  f n = Some x -> tryCounts n f = Some x.
Proof. intros H. destruct n; simpl; now rewrite H. Qed.

Lemma length_nonzero (p : string) : p <> "" -> (String.length p =? 0)%nat = false.
Proof. destruct p; [congruence | reflexivity]. Qed.

(** The plain import of a path, matched by the first pattern. *)
Lemma plain_import_match (p : string) :
  p <> "" ->
  (forall c, In c (list_ascii_of_string p) -> isQuote c = false) ->
  matchHere [Chars "import"; Plus Space; Class Quote; CapturePlus NotQuote; Class Quote]
    (Examples.importOf p)
  = Some (Some p, ";").
Proof.
  intros Hne Hq.
  change (Examples.importOf p)
    with ("import " ++ String doubleQuote (p ++ String doubleQuote ";"))%string.
  cbn [matchHere append startsWith String.length drop].
  change (Ascii.eqb "i" "i" && (Ascii.eqb "m" "m" && (Ascii.eqb "p" "p"
          && (Ascii.eqb "o" "o" && (Ascii.eqb "r" "r" && (Ascii.eqb "t" "t" && true))))))
    with true.
  cbv iota.
  change (run Space (String " " (String doubleQuote (p ++ String doubleQuote ";"))))
    with 1.
  cbn [tryCounts Nat.eqb drop].
  change (classMatches Quote doubleQuote) with true. cbv iota.
  rewrite (run_quote_free p ";" Hq).
  erewrite tryCounts_first; [reflexivity|].
  cbv beta. rewrite (length_nonzero p Hne), drop_append, take_append.
  reflexivity.
Qed.

Lemma importOf_shape (p : string) :
  Examples.importOf p
  = String "i" (("mport " ++ String doubleQuote (p ++ String doubleQuote ""))
                ++ ";")%string.
Proof.
  unfold Examples.importOf, Examples.dq. cbn [append]. do 8 f_equal.
  now rewrite RelativeImportFacts.append_assoc.
Qed.

Lemma plain_import_first_pattern (p : string) :
  p <> "" ->
  (forall c, In c (list_ascii_of_string p) -> isQuote c = false) ->
  execAll [Chars "import"; Plus Space; Class Quote; CapturePlus NotQuote; Class Quote]
    (Examples.importOf p)
  = [mkMatch 0 (Some p)].
Proof.
  intros Hne Hq. unfold execAll.
  pose proof (plain_import_match p Hne Hq) as Hm.
  rewrite importOf_shape in *.
  cbn [execLoop]. rewrite Hm. f_equal.
  cbn [String.length]. rewrite length_append. cbn [String.length].
  replace (S (String.length ("mport " ++ String doubleQuote (p ++ String doubleQuote ""))
              + 1) - 1 - 1)
    with (String.length ("mport " ++ String doubleQuote (p ++ String doubleQuote "")))
    by lia.
  rewrite execLoop_skip. reflexivity.
Qed.

(** The other patterns find nothing in a plain import: after the word
    import the text has a single quote left. *)
Lemma plain_import_other_patterns (p : string) (r : regex) :
  (forall c, In c (list_ascii_of_string p) -> isQuote c = false) ->
  In r (tl importRegexes) ->
  execAll r (Examples.importOf p) = [].
Proof.
  intros Hq Hr. unfold execAll.
  assert (Hbody : forall pos, quoteNodes r = 2 ->
                              execLoop r (p ++ String doubleQuote ";") pos 0 = []).
  { intros pos H2. apply execLoop_few_quotes. rewrite H2, quotes_append, (quotes_none p Hq).
    vm_compute. lia. }
  change (Examples.importOf p)
    with ("import " ++ String doubleQuote (p ++ String doubleQuote ";"))%string.
  cbn [tl importRegexes] in Hr.
  destruct Hr as [<-|[<-|[<-|[]]]];
    match goal with
    | |- execLoop ?r _ _ _ = _ =>
        transitivity (execLoop r (p ++ String doubleQuote ";") 8 0);
        [reflexivity | apply Hbody; reflexivity]
    end.
Qed.

(** X17.  The plain import statement of a path that is not empty and holds
    no quote gives back exactly that path: [extractImports] of
    [import "p";] is the list of [p] alone. *)
Theorem extractImports_plain_import (p : string) :
  p <> "" ->
  (forall c, In c (list_ascii_of_string p) -> isQuote c = false) ->
  extractImports (Examples.importOf p) = [p].
Proof.
  intros Hne Hq. unfold extractImports, importRegexes. cbn [fold_left].
  rewrite (plain_import_first_pattern p Hne Hq).
  rewrite !(plain_import_other_patterns p _ Hq) by (simpl; tauto).
  cbn [fold_left pushImport group1].
  apply String.eqb_neq in Hne. rewrite Hne. reflexivity.
Qed.

Lemma extractImports_plain_import_witness :
  extractImports (Examples.importOf "@lib/Token.sol") = ["@lib/Token.sol"].
Proof.
  apply extractImports_plain_import; [discriminate|].
  intros c H. simpl in H.
  repeat (destruct H as [<-|H]; [reflexivity|]). destruct H.
Defined.

End RoundTripFacts.

(** ** The selection of a remapping rule *)

Module RemappedImportExtras.
Import JsString FilfoxVerifier Spec.

(** X19.  [resolveRemappedImport] answers [null] exactly when the original
    of no rule is a prefix of the import; otherwise it rewrites the import by
    the first of the rules with the longest such original, and when the
    resolved string of that rule holds no dollar sign the result is that
    string followed by the import without the prefix. *)
Theorem resolveRemappedImport_selects_longest
  (importPath : string) (remappings : list Remapping) :
  match resolveRemappedImport importPath remappings with
  | None => forall m, In m remappings -> startsWith importPath (original m) = false
  | Some p =>
      exists before m after,
        remappings = before ++ m :: after
        /\ startsWith importPath (original m) = true
        /\ (forall m', In m' before -> startsWith importPath (original m') = true ->
                       String.length (original m') < String.length (original m))
        /\ (forall m', In m' after -> startsWith importPath (original m') = true ->
                       String.length (original m') <= String.length (original m))
        /\ p = replace importPath (original m) (resolved m)
        /\ (dollarFree (resolved m) ->
            p = (resolved m ++ drop (String.length (original m)) importPath)%string)
  end.
Proof. apply RemappedImportFacts.resolveRemappedImport_longest_prefix. Qed.

End RemappedImportExtras.
